(** * A shallow embedding of the MapTool calendar add-on

    The development follows [src/Calendar.ts] (the [Calendar] class, its
    extent cache and the day/time normalisation) and the binary search of
    the utility module.

    Modelling conventions.
    - A JavaScript [number] is a [JsNum]: an integer, an infinity or
      [NaN].  The calendar is specified over integers; fractions are
      outside the model, and [-0] is identified with [0].
    - The methods are embedded twice.  The first embedding computes every
      sum exactly; it is the code as long as all its numbers are safe
      integers.  The module [Double] embeds the setters and the extent
      resolution again with every sum and difference rounded as an
      IEEE 754 double, and is the code for integers of any size
      ([adjustTime], which divides, for safe integers).
    - Objects used as dictionaries are [gmap]s.  They are the
      dictionaries of the code for a generator that names no extent like
      a member of [Object.prototype] ([plainNames]); statements that
      read an entry as absent or present carry that hypothesis.
    - A method of the class is a function of the state-and-exception monad
      [M]: a [throw] keeps the mutations already performed, as in
      JavaScript.  The three [while] loops of the setters take fuel;
      running out of it is reported as [OutOfFuel], and every statement
      about a result shows that enough fuel exists.  The loop of the
      binary search always terminates and is defined by well-founded
      recursion on the width of the interval. *)

From Stdlib Require Import ZArith Lia Sorted.
From Stdlib Require Floats.SpecFloat.
From stdpp Require Import base option list strings gmap fin_maps.
From Equations Require Import Equations.

Local Open Scope Z_scope.

(** ** JavaScript numbers *)

Inductive JsNum : Type :=
| Int (z : Z)
| Inf (positive : bool)
| NaN.

Definition jneg (a : JsNum) : JsNum :=
  match a with
  | Int z => Int (- z)
  | Inf s => Inf (negb s)
  | NaN => NaN
  end.

(** [a + b] on numbers. *)
Definition jadd (a b : JsNum) : JsNum :=
  match a, b with
  | Int x, Int y => Int (x + y)
  | Int _, Inf s => Inf s
  | Inf s, Int _ => Inf s
  | Inf s, Inf t => if Bool.eqb s t then Inf s else NaN
  | _, _ => NaN
  end.

(** [a - b] on numbers. *)
Definition jsub (a b : JsNum) : JsNum := jadd a (jneg b).

(** [a < b]; every comparison with [NaN] is false. *)
Definition jlt (a b : JsNum) : bool :=
  match a, b with
  | Int x, Int y => x <? y
  | Int _, Inf s => s
  | Inf s, Int _ => negb s
  | Inf s, Inf t => negb s && t
  | _, _ => false
  end.

(** [a >= b]. *)
Definition jge (a b : JsNum) : bool :=
  match a, b with
  | Int x, Int y => y <=? x
  | Int _, Inf s => negb s
  | Inf s, Int _ => s
  | Inf s, Inf t => s || negb t
  | _, _ => false
  end.

(** [a % b]: the remainder takes the sign of the dividend. *)
Definition jrem (a b : JsNum) : JsNum :=
  match a, b with
  | Int x, Int y => if y =? 0 then NaN else Int (Z.rem x y)
  | Int x, Inf _ => Int x
  | _, _ => NaN
  end.

(** [Math.floor(a / b)]. *)
Definition jfloordiv (a b : JsNum) : JsNum :=
  match a, b with
  | Int x, Int y =>
      if y =? 0 then
        (if x =? 0 then NaN else Inf (0 <? x))
      else Int (x / y)
  | Int _, Inf _ => Int 0
  | Inf s, Int y => if y <? 0 then Inf (negb s) else Inf s
  | _, _ => NaN
  end.

(** A property that may be absent: reading it yields [undefined], which
    arithmetic turns into [NaN]. *)
Definition toNumber (field : option Z) : JsNum :=
  match field with
  | Some z => Int z
  | None => NaN
  end.

(** ** Extents, as the generator hands them over *)

(** [interface Extent { name: string; length: number }].  A caller from
    untyped code may leave a field out: [None] is the absent property. *)
Module Extent.
Record t : Type := mk { name : option string; length : option Z }.
End Extent.

(** Values whose [typeof] is not ["object"]. *)
Inductive Primitive : Type :=
| PUndefined
| PBoolean (b : bool)
| PNumber (n : JsNum)
| PString (s : string)
| PFunction.

(** One element of the array returned by the generator. *)
Inductive Elem : Type :=
| ENull
| EPrim (p : Primitive)
| EObject (e : Extent.t).

(** What [populateExtents(year)] returns: an array, or anything else. *)
Inductive GenResult : Type :=
| GArray (ext : list Elem)
| GOther.

(** [typeof v !== "object"]; note that [typeof null] is ["object"]. *)
Definition typeof_not_object (v : Elem) : bool :=
  match v with
  | EPrim _ => true
  | ENull | EObject _ => false
  end.

(** The property key obtained from [v.name]. *)
Definition nameKey (e : Extent.t) : string :=
  match Extent.name e with
  | Some s => s
  | None => "undefined"
  end.

(** [class _InternalExtent]. *)
Module IExt.
Record t : Type := mk {
  startYear : Z;
  startDay : JsNum;
  originalExt : Extent.t
}.

(** [compare(other)]: by year, then by start day. *)
Definition compare (this other : t) : Z :=
  if negb (startYear this - startYear other =? 0) then
    (if startYear this - startYear other <? 0 then -1 else 1)
  else
    match jsub (startDay this) (startDay other) with
    | Int rv => if negb (rv =? 0) then (if rv <? 0 then -1 else 1) else 0
    | Inf s => if s then 1 else -1
    | NaN => 1
    end.
End IExt.

(** ** Errors *)

Inductive Exn : Type :=
| TypeError_constructor
    (* Incorrect type in Calendar constructor *)
| TypeError_not_array
    (* Incorrect type of extents array, should be array *)
| TypeError_element (index : nat) (len : nat)
    (* Incorrect type in extents array, index i of len *)
| TypeError_parameter
    (* Incorrect type of parameter *)
| TypeError_property
    (* raised by the engine: a property read on null or undefined *)
| Error_already_cached
    (* buildExtents() called when data is already cached *)
| Error_backward_then_forward.
    (* day adjusted backward is now being adjust forward *)

Definition isTypeError (e : Exn) : bool :=
  match e with
  | TypeError_constructor | TypeError_not_array | TypeError_element _ _
  | TypeError_parameter | TypeError_property => true
  | Error_already_cached | Error_backward_then_forward => false
  end.

(** ** The calendar object *)

Record Calendar : Type := mkCalendar {
  populateExtents : Z -> GenResult;
  metrics : gmap string Z;
  extentsByStart : gmap Z (list IExt.t);
  extentsByName : gmap string (gmap Z IExt.t);
  startYear : Z;
  totalDays : JsNum;
  currentDay : JsNum;
  currentTime : JsNum;
  (** Instrumentation, not a field of the class: the years for which the
      generator has been invoked, most recent first. *)
  generatorCalls : list Z
}.

Definition set_extentsByStart (f : gmap Z (list IExt.t) -> gmap Z (list IExt.t))
    (c : Calendar) : Calendar :=
  mkCalendar (populateExtents c) (metrics c) (f (extentsByStart c))
    (extentsByName c) (startYear c) (totalDays c) (currentDay c)
    (currentTime c) (generatorCalls c).

Definition set_extentsByName
    (f : gmap string (gmap Z IExt.t) -> gmap string (gmap Z IExt.t))
    (c : Calendar) : Calendar :=
  mkCalendar (populateExtents c) (metrics c) (extentsByStart c)
    (f (extentsByName c)) (startYear c) (totalDays c) (currentDay c)
    (currentTime c) (generatorCalls c).

Definition set_position (day : JsNum) (year : Z) (total : JsNum)
    (c : Calendar) : Calendar :=
  mkCalendar (populateExtents c) (metrics c) (extentsByStart c)
    (extentsByName c) year total day (currentTime c) (generatorCalls c).

Definition set_currentTime (t : JsNum) (c : Calendar) : Calendar :=
  mkCalendar (populateExtents c) (metrics c) (extentsByStart c)
    (extentsByName c) (startYear c) (totalDays c) (currentDay c) t
    (generatorCalls c).

Definition log_call (year : Z) (c : Calendar) : Calendar :=
  mkCalendar (populateExtents c) (metrics c) (extentsByStart c)
    (extentsByName c) (startYear c) (totalDays c) (currentDay c)
    (currentTime c) (year :: generatorCalls c).

(** ** The monad of methods *)

Inductive Outcome (A : Type) : Type :=
| Ret (a : A) (c : Calendar)
| Throw (e : Exn) (c : Calendar)
| OutOfFuel.
Arguments Ret {A} a c.
Arguments Throw {A} e c.
Arguments OutOfFuel {A}.

Definition M (A : Type) : Type := Calendar -> Outcome A.

Definition ret {A} (a : A) : M A := fun c => Ret a c.
Definition throw {A} (e : Exn) : M A := fun c => Throw e c.
Definition outOfFuel {A} : M A := fun _ => OutOfFuel.
Definition bind {A B} (m : M A) (k : A -> M B) : M B :=
  fun c =>
    match m c with
    | Ret a c' => k a c'
    | Throw e c' => Throw e c'
    | OutOfFuel => OutOfFuel
    end.
Definition this : M Calendar := fun c => Ret c c.
Definition modify (f : Calendar -> Calendar) : M unit := fun c => Ret tt (f c).

Notation "'let!' x ':=' m 'in' k" := (bind m (fun x => k))
  (at level 10, x name, m at level 100, k at level 200, only parsing).
Notation "'let!' ' pat ':=' m 'in' k" :=
  (bind m (fun x => match x with pat => k end))
  (at level 10, pat pattern, m at level 100, k at level 200, only parsing).

(** The state an outcome leaves behind, when there is one. *)
Definition finalState {A} (o : Outcome A) : option Calendar :=
  match o with
  | Ret _ c | Throw _ c => Some c
  | OutOfFuel => None
  end.

Definition returned {A} (o : Outcome A) : bool :=
  match o with
  | Ret _ _ => true
  | _ => false
  end.

Definition thrown {A} (o : Outcome A) : option Exn :=
  match o with
  | Throw e _ => Some e
  | _ => None
  end.

(** ** Extent resolution *)

(** The assignment inside the [map] callback:
    [if (v.name in this.extentsByName) this.extentsByName[v.name][year] = rv;
     else this.extentsByName[v.name] = { [year]: rv };] *)
Definition indexByName (year : Z) (rv : IExt.t)
    (byName : gmap string (gmap Z IExt.t)) : gmap string (gmap Z IExt.t) :=
  let key := nameKey (IExt.originalExt rv) in
  match byName !! key with
  | Some years => <[key := <[year := rv]> years]> byName
  | None => <[key := {[year := rv]}]> byName
  end.

(** The callback of [ext.map], applied from [index] on; [start] is the
    running sum kept in the enclosing variable and [len] is [ext.length]. *)
Fixpoint mapExtents (year : Z) (len : nat) (index : nat) (start : JsNum)
    (ext : list Elem) : M (list IExt.t) :=
  match ext with
  | [] => ret []
  | v :: rest =>
      if typeof_not_object v then throw (TypeError_element index len)
      else
        match v with
        | EObject e =>
            let rv := IExt.mk year start e in
            let! _ := modify (set_extentsByName (indexByName year rv)) in
            let! rvs := mapExtents year len (S index)
                          (jadd start (toNumber (Extent.length e))) rest in
            ret (rv :: rvs)
        | _ => throw TypeError_property
        end
  end.

(** [private buildExtents(year)]. *)
Definition buildExtents (year : Z) : M unit :=
  let! c := this in
  if decide (is_Some (extentsByStart c !! year)) then
    throw Error_already_cached
  else
    let! _ := modify (log_call year) in
    match populateExtents c year with
    | GOther => throw TypeError_not_array
    | GArray ext =>
        let! rvs := mapExtents year (length ext) 0 (Int 0) ext in
        modify (set_extentsByStart <[year := rvs]>)
    end.

(** [private getLengthOfYear(year)]. *)
Definition getLengthOfYear (year : Z) : M JsNum :=
  let! c := this in
  let! _ := (if decide (extentsByStart c !! year = None)
             then buildExtents year else ret tt) in
  let! c := this in
  match extentsByStart c !! year with
  | None => throw TypeError_property
  | Some yearExtents =>
      match last yearExtents with
      | None => throw TypeError_property
      | Some lastExtent =>
          ret (jadd (IExt.startDay lastExtent)
                    (toNumber (Extent.length (IExt.originalExt lastExtent))))
      end
  end.

(** ** Position normalisation *)

(** The argument of [setCurrentDay], which checks [typeof n]. *)
Inductive Arg : Type :=
| ANumber (n : JsNum)
| ANotNumber.

(** [while (n < 0) { thisYear -= 1; totalDays = getLengthOfYear(thisYear);
    n += totalDays; }] *)
Fixpoint rollBackward (fuel : nat) (n : JsNum) (thisYear : Z)
    (totalDays : JsNum) {struct fuel} : M (JsNum * Z * JsNum) :=
  if jlt n (Int 0) then
    match fuel with
    | O => outOfFuel
    | S fuel' =>
        let thisYear := thisYear - 1 in
        let! totalDays := getLengthOfYear thisYear in
        rollBackward fuel' (jadd n totalDays) thisYear totalDays
    end
  else ret (n, thisYear, totalDays).

(** [while (n >= totalDays) { thisYear += 1;
    totalDays = getLengthOfYear(thisYear); n -= totalDays; }] *)
Fixpoint rollForward (fuel : nat) (n : JsNum) (thisYear : Z)
    (totalDays : JsNum) {struct fuel} : M (JsNum * Z * JsNum) :=
  if jge n totalDays then
    match fuel with
    | O => outOfFuel
    | S fuel' =>
        let thisYear := thisYear + 1 in
        let! totalDays := getLengthOfYear thisYear in
        rollForward fuel' (jsub n totalDays) thisYear totalDays
    end
  else ret (n, thisYear, totalDays).

(** [setCurrentDay(n)]. *)
Definition setCurrentDay (fuel : nat) (a : Arg) : M unit :=
  match a with
  | ANotNumber => throw TypeError_parameter
  | ANumber n =>
      let! c := this in
      let thisYear := startYear c in
      let! totalDays := getLengthOfYear (startYear c) in
      let! '(n, thisYear, totalDays) :=
        rollBackward fuel n thisYear totalDays in
      let! '(n, thisYear, totalDays) :=
        (if jge n totalDays then
           let! c := this in
           if decide (startYear c <> thisYear) then
             throw Error_backward_then_forward
           else rollForward fuel n thisYear totalDays
         else ret (n, thisYear, totalDays)) in
      modify (set_position n thisYear totalDays)
  end.

(** [this.metrics["day"]]. *)
Definition metricsDay (c : Calendar) : JsNum := toNumber (metrics c !! "day").

(** [while (n < 0) n += this.metrics["day"];] *)
Fixpoint addDays (fuel : nat) (n : JsNum) (day : JsNum) {struct fuel}
    : option JsNum :=
  if jlt n (Int 0) then
    match fuel with
    | O => None
    | S fuel' => addDays fuel' (jadd n day) day
    end
  else Some n.

(** [setCurrentTime(n)]. *)
Definition setCurrentTime (fuel : nat) (n : JsNum) : M unit :=
  let! c := this in
  match addDays fuel n (metricsDay c) with
  | None => outOfFuel
  | Some n => modify (set_currentTime (jrem n (metricsDay c)))
  end.

(** [adjustDay(n)]. *)
Definition adjustDay (fuel : nat) (n : JsNum) : M unit :=
  let! c := this in
  setCurrentDay fuel (ANumber (jadd (currentDay c) n)).

(** [adjustTime(n)]. *)
Definition adjustTime (fuel : nat) (n : JsNum) : M unit :=
  let! c := this in
  let newTime := jadd (currentTime c) n in
  let! _ := setCurrentDay fuel
              (ANumber (jadd (currentDay c)
                             (jfloordiv newTime (metricsDay c)))) in
  setCurrentTime fuel newTime.

(** ** Construction *)

(** [interface CalendarOptions]; [None] is a property left out (for
    [populateExtents]: left out, or not a function). *)
Module CalendarOptions.
Record t : Type := mk {
  startYear : option Z;
  populateExtents : option (Z -> GenResult);
  metrics : option (gmap string Z);
  currentDay : option JsNum;
  currentTime : option JsNum
}.
End CalendarOptions.

Definition extent (name : string) (length : Z) : Elem :=
  EObject (Extent.mk (Some name) (Some length)).

(** The generator of [DefaultCalendarOptions]: the Gregorian months. *)
Definition defaultPopulateExtents (year : Z) : GenResult :=
  GArray
    [ extent "Jan" 31;
      extent "Feb"
        (28 + (if (Z.rem year 4 =? 0)
                  && (negb (Z.rem year 100 =? 0) || (Z.rem year 400 =? 0))
               then 1 else 0));
      extent "Mar" 31; extent "Apr" 30; extent "May" 31; extent "Jun" 30;
      extent "Jul" 31; extent "Aug" 31; extent "Sep" 30; extent "Oct" 31;
      extent "Nov" 30; extent "Dec" 31 ].

Definition defaultMetrics : gmap string Z :=
  list_to_map
    [ ("second", 1); ("seconds", 1); ("turn", 6); ("turns", 6);
      ("round", 6); ("rounds", 6); ("minute", 60); ("minutes", 60);
      ("hour", 3600); ("hours", 3600); ("day", 86400); ("days", 86400) ].

(** [class DefaultCalendarOptions]. *)
Definition DefaultCalendarOptions : CalendarOptions.t :=
  CalendarOptions.mk (Some 0) (Some defaultPopulateExtents)
    (Some defaultMetrics) (Some (Int 0)) (Some (Int 0)).

(** [x || d] for a number [x]: [0], [NaN] and [undefined] are falsy. *)
Definition numberOr (x : option JsNum) (d : JsNum) : JsNum :=
  match x with
  | Some (Int z) => if z =? 0 then d else Int z
  | Some (Inf s) => Inf s
  | Some NaN | None => d
  end.

(** [this.startYear = props?.startYear || 2022]. *)
Definition initialStartYear (props : CalendarOptions.t) : Z :=
  match CalendarOptions.startYear props with
  | Some z => if z =? 0 then 2022 else z
  | None => 2022
  end.

(** The object after the field initialisers and the assignments of the
    constructor that precede the first call of a setter. *)
Definition wireFields (props : CalendarOptions.t) (gen : Z -> GenResult)
    : Calendar :=
  mkCalendar gen
    (default defaultMetrics (CalendarOptions.metrics props))
    ∅ ∅ (initialStartYear props) (Int 0) (Int 0) (Int 0) [].

(** [new Calendar(props)]; [None] is a call without argument.  The state
    carried by a [Throw] is the discarded, half-built object. *)
Definition newCalendar (fuel : nat) (arg : option CalendarOptions.t)
    : Outcome unit :=
  let props := default DefaultCalendarOptions arg in
  match CalendarOptions.populateExtents props,
        CalendarOptions.startYear props with
  | Some gen, Some _ =>
      (let! _ := setCurrentDay fuel
                   (ANumber (numberOr (CalendarOptions.currentDay props)
                               (Int 0))) in
       let! _ := setCurrentTime fuel
                   (numberOr (CalendarOptions.currentTime props) (Int 0)) in
       let! c := this in
       match extentsByStart c !! startYear c with
       | None => throw TypeError_property
       | Some prevYear =>
           match last prevYear with
           | None => throw TypeError_property
           | Some lastExtent => ret tt
           end
       end) (wireFields props gen)
  | _, _ => Throw TypeError_constructor (wireFields props (fun _ => GOther))
  end.

(** ** Binary search (the utility module) *)

(** [Type extends { compare?: Comparator }]: a searched value may carry a
    [compare] method; without one it is compared with [<] and [===]. *)
Class Comparable (A : Type) : Type := {
  compareMethod : A -> option (A -> Z);
  lessThan : A -> A -> bool;
  strictEq : A -> A -> bool
}.

#[export] Instance Comparable_Z : Comparable Z := {
  compareMethod := fun _ => None;
  lessThan := Z.ltb;
  strictEq := Z.eqb
}.

(** The first argument, checked with [Array.isArray]. *)
Inductive ArrayArg (A : Type) : Type :=
| IsArray (ary : list A)
| NotArray.
Arguments IsArray {A} ary.
Arguments NotArray {A}.

Inductive SearchResult : Type :=
| Returned (r : Z)
| SearchTypeError_not_array
| SearchTypeError_empty
| SearchRangeError (comparison : Z)
| UndefinedElement.
    (* [ary[mid]] read out of range; shown unreachable below *)

(** The four arms of [switch (comparison)]. *)
Inductive Arm : Type :=
| CaseMinusOne
| CaseZero
| CaseOne
| CaseDefault.

Definition switch (comparison : Z) : Arm :=
  if comparison =? -1 then CaseMinusOne
  else if comparison =? 0 then CaseZero
  else if comparison =? 1 then CaseOne
  else CaseDefault.

Section Bsearch.
Context {A : Type}.
Variable compareFn : A -> A -> Z.
Variable ary : list A.
Variable value : A.

(** [while (low <= high) { mid = Math.floor((low + high) / 2); ... }
    return -mid;] *)
Equations? bsearchLoop (low high mid : Z) : SearchResult
  by wf (Z.to_nat (high - low + 1)) lt :=
bsearchLoop low high mid with decide (low <= high) := {
  | right _ => Returned (- mid)
  | left _ with ary !! Z.to_nat ((low + high) / 2) := {
      | None => UndefinedElement
      | Some x with switch (compareFn value x) := {
          | CaseMinusOne =>
              bsearchLoop low ((low + high) / 2 - 1) ((low + high) / 2)
          | CaseZero => Returned ((low + high) / 2)
          | CaseOne =>
              bsearchLoop ((low + high) / 2 + 1) high ((low + high) / 2)
          | CaseDefault => SearchRangeError (compareFn value x)
        }
    }
}.
Proof.
  all: Z.div_mod_to_equations; lia.
Qed.
End Bsearch.

(** [static bsearch(ary, value, compare?)]. *)
Definition bsearch {A} `{Comparable A} (ary : ArrayArg A) (value : A)
    (compare : option (A -> A -> Z)) : SearchResult :=
  match ary with
  | NotArray => SearchTypeError_not_array
  | IsArray ary =>
      let low := 0 in
      let high := Z.of_nat (length ary) - 1 in
      let mid := 0 in
      if high <? 0 then SearchTypeError_empty
      else
        let compareFn : A -> A -> Z :=
          match compare with
          | Some f => f
          | None =>
              match compareMethod value with
              | Some method => fun a b => method b
              | None =>
                  fun a b =>
                    if lessThan a b then -1
                    else if strictEq a b then 0 else 1
              end
          end in
        bsearchLoop compareFn ary value low high mid
  end.

(** The insertion index of the contract, following its words: the index
    at which [value] would have to be inserted to keep an ascending
    array ordered, that is, the number of leading elements that [value]
    is greater than. *)
Fixpoint insertionIndex {A} (compareFn : A -> A -> Z) (value : A)
    (ary : list A) : Z :=
  match ary with
  | [] => 0
  | x :: rest =>
      if compareFn value x =? 1 then 1 + insertionIndex compareFn value rest
      else 0
  end.

(** The array is in ascending order as seen from [value]: the comparator
    answers one of -1, 0, 1, and along the array its answers never go from
    "value is smaller" back to "value is equal or greater", nor from
    "value is equal" back to "value is greater". *)
Definition ascendingFor {A} (compareFn : A -> A -> Z) (value : A)
    (ary : list A) : Prop :=
  (forall x, x ∈ ary -> switch (compareFn value x) <> CaseDefault)
  /\ (forall (i j : nat) x y,
        (i < j)%nat -> ary !! i = Some x -> ary !! j = Some y ->
        (compareFn value x = -1 -> compareFn value y = -1)
        /\ (compareFn value y = 1 -> compareFn value x = 1)).

(** ** Public operations and the states a calendar can be in *)

Inductive Op : Type :=
| OpSetCurrentDay (a : Arg)
| OpSetCurrentTime (n : JsNum)
| OpAdjustDay (n : JsNum)
| OpAdjustTime (n : JsNum).

Definition run (fuel : nat) (op : Op) : M unit :=
  match op with
  | OpSetCurrentDay a => setCurrentDay fuel a
  | OpSetCurrentTime n => setCurrentTime fuel n
  | OpAdjustDay n => adjustDay fuel n
  | OpAdjustTime n => adjustTime fuel n
  end.

(** The lifetime of a calendar: it is constructed, and then used through
    its public operations; an operation that throws leaves the object in
    the state it had when the exception was raised. *)
Inductive reachable : Calendar -> Prop :=
| reachable_new (fuel : nat) (arg : option CalendarOptions.t) (c : Calendar) :
    newCalendar fuel arg = Ret tt c -> reachable c
| reachable_run (fuel : nat) (op : Op) (c c' : Calendar) :
    reachable c -> finalState (run fuel op c) = Some c' -> reachable c'.

(** ** Vocabulary of the specification *)

(** The resolved extents of a year, as a function of the generated list:
    each start day is the running sum of the preceding lengths.  [None]
    when an element is not a (non-null) object. *)
Fixpoint layout (year : Z) (start : JsNum) (ext : list Elem)
    : option (list IExt.t) :=
  match ext with
  | [] => Some []
  | EObject e :: rest =>
      match layout year (jadd start (toNumber (Extent.length e))) rest with
      | Some rvs => Some (IExt.mk year start e :: rvs)
      | None => None
      end
  | _ :: _ => None
  end.

(** The generated value for a year passes the validation of
    [buildExtents]. *)
Definition passesValidation (g : GenResult) : Prop :=
  match g with
  | GArray ext => Forall (fun v => exists e, v = EObject e) ext
  | GOther => False
  end.

(** The required extent shape: an object with a [name] and a [length]. *)
Definition hasExtentShape (v : Elem) : bool :=
  match v with
  | EObject e => bool_decide (is_Some (Extent.name e))
                 && bool_decide (is_Some (Extent.length e))
  | _ => false
  end.

(** The day count of a resolved year: the last extent's
    [startDay + length]. *)
Definition lengthOfExtents (yearExtents : list IExt.t) : option JsNum :=
  match last yearExtents with
  | Some lastExtent =>
      Some (jadd (IExt.startDay lastExtent)
                 (toNumber (Extent.length (IExt.originalExt lastExtent))))
  | None => None
  end.

Definition positiveLength (yearExtents : list IExt.t) : Prop :=
  exists z, lengthOfExtents yearExtents = Some (Int z) /\ 0 < z.

(** Every year has a positive total length: the years already cached,
    and the years the generator will produce. *)
Definition positiveYears (c : Calendar) : Prop :=
  (forall y yearExtents,
      extentsByStart c !! y = Some yearExtents -> positiveLength yearExtents)
  /\ (forall y, exists ext yearExtents,
         populateExtents c y = GArray ext
         /\ layout y (Int 0) ext = Some yearExtents
         /\ positiveLength yearExtents).

(** [total] is the day count of [year] as the cache of [c] has it. *)
Definition cachedLength (c : Calendar) (year : Z) (total : JsNum) : Prop :=
  exists yearExtents,
    extentsByStart c !! year = Some yearExtents
    /\ lengthOfExtents yearExtents = Some total.

(** The position fields of the object. *)
Definition position (c : Calendar) : Z * JsNum * JsNum * JsNum :=
  (startYear c, currentDay c, totalDays c, currentTime c).

(** [c'] differs from [c] at most in the by-name index. *)
Definition sameButByName (c c' : Calendar) : Prop :=
  c' = set_extentsByName (fun _ => extentsByName c') c.

(** [c'] differs from [c] at most in the two cache views and in the
    call log (which is then extended). *)
Definition sameButCaches (c c' : Calendar) : Prop :=
  populateExtents c' = populateExtents c
  /\ metrics c' = metrics c
  /\ position c' = position c
  /\ exists more, generatorCalls c' = more ++ generatorCalls c.


(** The generator returns, for every year, a non-empty list of extents
    with a name and a positive length. *)
Definition positiveExtents (gen : Z -> GenResult) : Prop :=
  forall y, exists ext,
    gen y = GArray ext
    /\ ext <> []
    /\ Forall (fun v => exists name len, v = extent name len /\ 0 < len) ext.

(** ** Generators used in the examples *)

(** The generator of the test suite: four quarters, 365 days. *)
Definition quarters : list Elem :=
  [ extent "Qtr1" (31 + 28 + 31); extent "Qtr2" (30 + 31 + 30);
    extent "Qtr3" (31 + 31 + 30); extent "Qtr4" (31 + 30 + 31) ].

Definition quartersOptions (gen : Z -> GenResult) : CalendarOptions.t :=
  CalendarOptions.mk (Some 2022) (Some gen) None None None.

Definition everyYearQuarters (year : Z) : GenResult := GArray quarters.

(** The Gregorian calendar started in 2023 on its last day. *)
Definition lastDayOf2023 : CalendarOptions.t :=
  CalendarOptions.mk (Some 2023) (Some defaultPopulateExtents) None
    (Some (Int 364)) None.

(** The quarters calendar asked to start in year 0. *)
Definition yearZero : CalendarOptions.t :=
  CalendarOptions.mk (Some 0) (Some everyYearQuarters) None None None.

(** The array of the utility tests. *)
Definition arrayOfInt : list Z := [10; 20; 30; 40; 50; 60; 70; 80; 90; 100].

(** The comparator [bsearch] falls back to for numbers. *)
Definition compareNumbers (a b : Z) : Z :=
  if a <? b then -1 else if a =? b then 0 else 1.

(** Quarters, except that year 2023 is not an array. *)
Definition notArrayIn2023 (year : Z) : GenResult :=
  if year =? 2023 then GOther else GArray quarters.

(** Quarters, except that the list of 2024 has a number at index 1. *)
Definition badElementIn2024 (year : Z) : GenResult :=
  if year =? 2024 then GArray [ extent "Qtr1" 90; EPrim (PNumber (Int 7)) ]
  else GArray quarters.

(** A generator whose only element is an object with neither field. *)
Definition emptyObject (year : Z) : GenResult :=
  GArray [ EObject (Extent.mk None None) ].

(** The cache of [c'] is the cache of [c] extended by years whose
    generated list passed validation, each with the layout of that list. *)
Definition cacheGrows (c c' : Calendar) : Prop :=
  forall y,
    extentsByStart c' !! y = extentsByStart c !! y
    \/ (extentsByStart c !! y = None
        /\ exists ext rvs,
             populateExtents c y = GArray ext
             /\ layout y (Int 0) ext = Some rvs
             /\ extentsByStart c' !! y = Some rvs).

(** Between [c] and [c'] years have been resolved, and nothing else. *)
Definition resolvedOnly (c c' : Calendar) : Prop :=
  sameButCaches c c' /\ cacheGrows c c'.



(** ** Scripts: a caller using the object *)

(** The caller goes on with the object after [o], whether [o] returned
    or threw (and was caught). *)
Definition afterwards {A B} (o : Outcome A) (m : M B) : Outcome B :=
  match finalState o with
  | Some c => m c
  | None => OutOfFuel
  end.

(** The object the caller holds after [o]. *)
Definition objectAfter {A} (o : Outcome A) : Calendar :=
  default (wireFields DefaultCalendarOptions defaultPopulateExtents)
    (finalState o).

(** [year in extentsByStart], on the object left by [o]. *)
Definition cachedIn {A} (year : Z) (o : Outcome A) : bool :=
  match finalState o with
  | Some c => bool_decide (is_Some (extentsByStart c !! year))
  | None => false
  end.


Definition positionAfter {A} (o : Outcome A)
    : option (Z * JsNum * JsNum * JsNum) :=
  position <$> finalState o.

(** ** Vocabulary for the invariants of a calendar in use *)

(** The cache is a memo of the generator: every cached year holds the
    layout of the list the generator returns for it. *)
Definition cacheFromGenerator (c : Calendar) : Prop :=
  forall y yearExtents,
    extentsByStart c !! y = Some yearExtents ->
    exists ext,
      populateExtents c y = GArray ext
      /\ layout y (Int 0) ext = Some yearExtents.

Definition notInfinite (a : JsNum) : Prop := forall s, a <> Inf s.

(** [this.extentsByName[name][year]]. *)
Definition namedExtent (c : Calendar) (name : string) (year : Z)
    : option IExt.t :=
  match extentsByName c !! name with
  | Some years => years !! year
  | None => None
  end.


(** The quarters calendar of the test suite, as constructed, and the
    resolved extents of one of its years. *)
Definition quartersCalendar : Calendar :=
  objectAfter (newCalendar 1 (Some (quartersOptions everyYearQuarters))).


(** The list a typed generator returns, from its (name, length) pairs. *)
Definition extentsOf (pairs : list (string * Z)) : list Elem :=
  map (fun p => extent p.1 p.2) pairs.

Definition sumOf (lengths : list Z) : Z := foldr Z.add 0 lengths.

(** The Gregorian leap years, by divisibility. *)
Definition leapYear (y : Z) : Prop :=
  (4 | y) /\ (~ (100 | y) \/ (400 | y)).








(** The comparator [bsearch] settles on: the one passed, else the
    [compare] method of the searched value, else [<] and [===]. *)
Definition comparatorOf {A} `{Comparable A} (value : A)
    (compare : option (A -> A -> Z)) : A -> A -> Z :=
  match compare with
  | Some f => f
  | None =>
      match compareMethod value with
      | Some method => fun a b => method b
      | None =>
          fun a b =>
            if lessThan a b then -1 else if strictEq a b then 0 else 1
      end
  end.

(** The quarters of the test suite as (name, length) pairs. *)
Definition quartersPairs : list (string * Z) :=
  [ ("Qtr1", 90); ("Qtr2", 91); ("Qtr3", 92); ("Qtr4", 92) ].




(** The quarters calendar with a day of zero seconds. *)
Definition zeroDayCalendar : Calendar :=
  wireFields
    (CalendarOptions.mk (Some 2022) (Some everyYearQuarters)
       (Some {[ "day" := 0 ]}) None None)
    everyYearQuarters.

(** ** Names that a dictionary object inherits *)

(** The members of [Object.prototype].  The two dictionaries of the
    class are plain objects: [name in dict] and [dict[name]] answer for
    these names from the prototype, and an assignment to
    [dict["__proto__"][year]] lands on [Object.prototype] itself, where
    [year in extentsByStart] then finds it.  The [gmap]s of this
    development are the dictionaries of a generator that uses none of
    these names. *)
Definition objectPrototypeNames : list string :=
  [ "__proto__"; "constructor"; "hasOwnProperty"; "isPrototypeOf";
    "propertyIsEnumerable"; "toLocaleString"; "toString"; "valueOf";
    "__defineGetter__"; "__defineSetter__"; "__lookupGetter__";
    "__lookupSetter__" ].

(** The element is not an extent named like a member of
    [Object.prototype]. *)
Definition plainName (v : Elem) : bool :=
  match v with
  | EObject e => negb (bool_decide (nameKey e ∈ objectPrototypeNames))
  | _ => true
  end.

(** No extent the generator returns is named like a member of
    [Object.prototype]. *)
Definition plainNames (gen : Z -> GenResult) : Prop :=
  forall y ext, gen y = GArray ext -> forallb plainName ext = true.



(** The last extent of the year that carries the name: the callback
    indexes the extents in order, a later one replacing an earlier one
    of the same name. *)
Definition lastNamed (name : string) (yearExtents : list IExt.t)
    : option IExt.t :=
  last (filter (fun rv => nameKey (IExt.originalExt rv) = name) yearExtents).

(** Under every name that occurs in a cached year, the by-name index
    holds the last extent of that year with that name. *)
Definition indexedByName (c : Calendar) : Prop :=
  forall y yearExtents name rv,
    extentsByStart c !! y = Some yearExtents ->
    lastNamed name yearExtents = Some rv ->
    namedExtent c name y = Some rv.

(** A generator of two extents of the same name. *)
Definition twoHalves (year : Z) : GenResult :=
  GArray [ extent "Half" 182; extent "Half" 183 ].

Definition twoHalvesCalendar : Calendar :=
  objectAfter (newCalendar 1 (Some (quartersOptions twoHalves))).

(** ** Numbers as IEEE doubles

    The sums of the methods above are exact.  A JavaScript [number] is
    an IEEE 754 double: a sum of integers is exact as long as it is a
    safe integer, and is rounded to 53 significant bits beyond. *)

(** [Number.MAX_SAFE_INTEGER]. *)
Definition maxSafeInteger : Z := 2 ^ 53 - 1.

(** [Number.isSafeInteger(z)]. *)
Definition safeInteger (z : Z) : Prop :=
  - maxSafeInteger <= z <= maxSafeInteger.

(** The magnitude of the double nearest to the integer [a >= 0]: [a]
    itself while it has at most 53 significant bits, and otherwise [a]
    rounded to 53 significant bits, a tie going to the even
    significand. *)
Definition roundToDouble (a : Z) : Z :=
  let e := Z.log2 a - 52 in
  if e <=? 0 then a
  else
    let q := a / 2 ^ e in
    let r := Z.modulo a (2 ^ e) in
    let half := 2 ^ (e - 1) in
    (if (half <? r) || ((r =? half) && Z.odd q) then q + 1 else q) * 2 ^ e.

(** The double that an operation on integers with the exact result [z]
    yields: the nearest double, or an infinity beyond the largest
    double. *)
Definition binary64 (z : Z) : JsNum :=
  let m := roundToDouble (Z.abs z) in
  if 2 ^ 1024 <=? m then Inf (0 <? z) else Int (Z.sgn z * m).

(** [a + b] on doubles that are integers, infinities or [NaN]. *)
Definition dadd (a b : JsNum) : JsNum :=
  match a, b with
  | Int x, Int y => binary64 (x + y)
  | _, _ => jadd a b
  end.

(** [a - b] on doubles. *)
Definition dsub (a b : JsNum) : JsNum := dadd a (jneg b).

(** [thisYear -= 1] and [thisYear += 1]: the year is a double too. *)
Definition yearBefore (year : Z) : Z :=
  match binary64 (year - 1) with
  | Int z => z
  | _ => year
  end.

Definition yearAfter (year : Z) : Z :=
  match binary64 (year + 1) with
  | Int z => z
  | _ => year
  end.

(** [Math.floor] of a float of the Standard Library's specification of
    IEEE 754, as a number of this development: the integer itself when
    the float is one. *)
Definition ofSpecFloat (f : SpecFloat.spec_float) : JsNum :=
  match f with
  | SpecFloat.S754_zero _ => Int 0
  | SpecFloat.S754_infinity negative => Inf (negb negative)
  | SpecFloat.S754_nan => NaN
  | SpecFloat.S754_finite negative m e =>
      let s := if negative then Z.neg m else Z.pos m in
      Int (if 0 <=? e then s * 2 ^ e else s / 2 ^ (- e))
  end.

(** The double nearest to [z], by that specification: 53 bits of
    precision and exponents below 1024. *)
Definition toSpecFloat (z : Z) : SpecFloat.spec_float :=
  SpecFloat.binary_normalize 53 1024 z 0 false.

Definition sameNumber (a b : JsNum) : bool :=
  match a, b with
  | Int x, Int y => x =? y
  | Inf s, Inf t => Bool.eqb s t
  | NaN, NaN => true
  | _, _ => false
  end.

(** Pairs of doubles whose sum is checked against the specification:
    small numbers, the numbers around [2^53] and [2^54], the numbers of
    the examples below, and the numbers around the largest double. *)
Definition sumsChecked : list (Z * Z) :=
  [ (0, 0); (-1, 1); (90, 91); (-1, 2 ^ 53 + 4); (- 2 ^ 71, 86400);
    (2 ^ 63, -365); (2 ^ 63, -366); (2 ^ 53, 1); (2 ^ 53, 2); (2 ^ 53, 3);
    (2 ^ 53 - 1, 1); (- 2 ^ 53, -1); (2 ^ 54, 1); (2 ^ 54, 2); (2 ^ 54, 3);
    (2 ^ 54, 5); (2 ^ 54, 6); (2 ^ 60, -365); (- 2 ^ 60, 365);
    (2 ^ 100, 2 ^ 47); (2 ^ 100, 2 ^ 47 + 1); (2 ^ 100, 3 * 2 ^ 47);
    (2 ^ 1023, 2 ^ 1023); (2 ^ 1024 - 2 ^ 971, 2 ^ 970);
    (2 ^ 1024 - 2 ^ 971, 2 ^ 969); (- (2 ^ 1024 - 2 ^ 971), - 2 ^ 970);
    (2 ^ 1024 - 2 ^ 971, - 2 ^ 1000) ].

(** Pairs of a safe integer and a positive safe integer whose quotient
    is checked against the specification: times and day lengths, and
    quotients just below and just above an integer. *)
Definition quotientsChecked : list (Z * Z) :=
  [ (0, 1); (0, 86400); (10, 3); (-10, 3); (-1, 3); (1, 3); (-1000, 86400);
    (86399, 86400); (86400, 86400); (-86400, 86400); (-86401, 86400);
    (172799, 86400); (2 ^ 53 - 1, 1); (- (2 ^ 53 - 1), 1);
    (2 ^ 53 - 1, 2 ^ 53 - 1); (2 ^ 53 - 2, 2 ^ 53 - 1);
    (- (2 ^ 53 - 2), 2 ^ 53 - 1); (-1, 2 ^ 53 - 1); (1, 2 ^ 53 - 1);
    (2 ^ 53 - 1, 3); (- (2 ^ 53 - 1), 3); (2 ^ 53 - 1, 2);
    (- (2 ^ 53 - 1), 2); (2 ^ 53 - 1, 86400); (- (2 ^ 53 - 1), 86400);
    (2 ^ 52 + 1, 2 ^ 26 + 1); (- (2 ^ 52 + 1), 2 ^ 26 + 1);
    (2 ^ 53 - 3, 2 ^ 27 - 1); (3 * (2 ^ 51 - 1) - 1, 3);
    (7 * (2 ^ 50 - 1) - 1, 7); (- (7 * (2 ^ 50 - 1) - 1), 7);
    (86400 * 2 ^ 36 - 1, 86400); (- (86400 * 2 ^ 36) + 1, 86400) ].

(** ** The methods over doubles

    The methods of the class once more, with every sum and difference
    of the source rounded as a double: [start += v.length],
    [lastExtent.startDay + lastExtent.originalExt.length],
    [thisYear -= 1], [n += totalDays], [thisYear += 1],
    [n -= totalDays], [n += this.metrics["day"]] and
    [this.currentDay + n], and in [adjustTime] [this.currentTime + n]
    and [this.currentDay + Math.floor(...)].  Comparisons and [%] are
    exact on doubles.  [Math.floor(newTime / this.metrics["day"])] is
    [jfloordiv], the floor of the exact quotient: the quotient of a safe
    integer by a positive safe integer has the floor of its double
    (checked on [quotientsChecked] below), and [adjustTime] is stated
    for these only. *)
Module Double.

Fixpoint mapExtents (year : Z) (len : nat) (index : nat) (start : JsNum)
    (ext : list Elem) : M (list IExt.t) :=
  match ext with
  | [] => ret []
  | v :: rest =>
      if typeof_not_object v then throw (TypeError_element index len)
      else
        match v with
        | EObject e =>
            let rv := IExt.mk year start e in
            let! _ := modify (set_extentsByName (indexByName year rv)) in
            let! rvs := mapExtents year len (S index)
                          (dadd start (toNumber (Extent.length e))) rest in
            ret (rv :: rvs)
        | _ => throw TypeError_property
        end
  end.

Definition buildExtents (year : Z) : M unit :=
  let! c := this in
  if decide (is_Some (extentsByStart c !! year)) then
    throw Error_already_cached
  else
    let! _ := modify (log_call year) in
    match populateExtents c year with
    | GOther => throw TypeError_not_array
    | GArray ext =>
        let! rvs := mapExtents year (length ext) 0 (Int 0) ext in
        modify (set_extentsByStart <[year := rvs]>)
    end.

Definition getLengthOfYear (year : Z) : M JsNum :=
  let! c := this in
  let! _ := (if decide (extentsByStart c !! year = None)
             then buildExtents year else ret tt) in
  let! c := this in
  match extentsByStart c !! year with
  | None => throw TypeError_property
  | Some yearExtents =>
      match last yearExtents with
      | None => throw TypeError_property
      | Some lastExtent =>
          ret (dadd (IExt.startDay lastExtent)
                    (toNumber (Extent.length (IExt.originalExt lastExtent))))
      end
  end.

Fixpoint rollBackward (fuel : nat) (n : JsNum) (thisYear : Z)
    (totalDays : JsNum) {struct fuel} : M (JsNum * Z * JsNum) :=
  if jlt n (Int 0) then
    match fuel with
    | O => outOfFuel
    | S fuel' =>
        let thisYear := yearBefore thisYear in
        let! totalDays := getLengthOfYear thisYear in
        rollBackward fuel' (dadd n totalDays) thisYear totalDays
    end
  else ret (n, thisYear, totalDays).

Fixpoint rollForward (fuel : nat) (n : JsNum) (thisYear : Z)
    (totalDays : JsNum) {struct fuel} : M (JsNum * Z * JsNum) :=
  if jge n totalDays then
    match fuel with
    | O => outOfFuel
    | S fuel' =>
        let thisYear := yearAfter thisYear in
        let! totalDays := getLengthOfYear thisYear in
        rollForward fuel' (dsub n totalDays) thisYear totalDays
    end
  else ret (n, thisYear, totalDays).

Definition setCurrentDay (fuel : nat) (a : Arg) : M unit :=
  match a with
  | ANotNumber => throw TypeError_parameter
  | ANumber n =>
      let! c := this in
      let thisYear := startYear c in
      let! totalDays := getLengthOfYear (startYear c) in
      let! '(n, thisYear, totalDays) :=
        rollBackward fuel n thisYear totalDays in
      let! '(n, thisYear, totalDays) :=
        (if jge n totalDays then
           let! c := this in
           if decide (startYear c <> thisYear) then
             throw Error_backward_then_forward
           else rollForward fuel n thisYear totalDays
         else ret (n, thisYear, totalDays)) in
      modify (set_position n thisYear totalDays)
  end.

Fixpoint addDays (fuel : nat) (n : JsNum) (day : JsNum) {struct fuel}
    : option JsNum :=
  if jlt n (Int 0) then
    match fuel with
    | O => None
    | S fuel' => addDays fuel' (dadd n day) day
    end
  else Some n.

Definition setCurrentTime (fuel : nat) (n : JsNum) : M unit :=
  let! c := this in
  match addDays fuel n (metricsDay c) with
  | None => outOfFuel
  | Some n => modify (set_currentTime (jrem n (metricsDay c)))
  end.

Definition adjustDay (fuel : nat) (n : JsNum) : M unit :=
  let! c := this in
  setCurrentDay fuel (ANumber (dadd (currentDay c) n)).

Definition adjustTime (fuel : nat) (n : JsNum) : M unit :=
  let! c := this in
  let newTime := dadd (currentTime c) n in
  let! _ := setCurrentDay fuel
              (ANumber (dadd (currentDay c)
                             (jfloordiv newTime (metricsDay c)))) in
  setCurrentTime fuel newTime.

Definition newCalendar (fuel : nat) (arg : option CalendarOptions.t)
    : Outcome unit :=
  let props := default DefaultCalendarOptions arg in
  match CalendarOptions.populateExtents props,
        CalendarOptions.startYear props with
  | Some gen, Some _ =>
      (let! _ := setCurrentDay fuel
                   (ANumber (numberOr (CalendarOptions.currentDay props)
                               (Int 0))) in
       let! _ := setCurrentTime fuel
                   (numberOr (CalendarOptions.currentTime props) (Int 0)) in
       let! c := this in
       match extentsByStart c !! startYear c with
       | None => throw TypeError_property
       | Some prevYear =>
           match last prevYear with
           | None => throw TypeError_property
           | Some lastExtent => ret tt
           end
       end) (wireFields props gen)
  | _, _ => Throw TypeError_constructor (wireFields props (fun _ => GOther))
  end.

(** The resolved extents of a year as a function of the generated list,
    each start day being the rounded running sum. *)
Fixpoint layout (year : Z) (start : JsNum) (ext : list Elem)
    : option (list IExt.t) :=
  match ext with
  | [] => Some []
  | EObject e :: rest =>
      match layout year (dadd start (toNumber (Extent.length e))) rest with
      | Some rvs => Some (IExt.mk year start e :: rvs)
      | None => None
      end
  | _ :: _ => None
  end.

(** The day count of a resolved year. *)
Definition lengthOfExtents (yearExtents : list IExt.t) : option JsNum :=
  match last yearExtents with
  | Some lastExtent =>
      Some (dadd (IExt.startDay lastExtent)
                 (toNumber (Extent.length (IExt.originalExt lastExtent))))
  | None => None
  end.

(** Every year, cached or still to be generated, has a day count that
    is an integer satisfying [P]. *)
Definition yearLengths (P : Z -> Prop) (c : Calendar) : Prop :=
  (forall y yearExtents,
      extentsByStart c !! y = Some yearExtents ->
      exists z, lengthOfExtents yearExtents = Some (Int z) /\ P z)
  /\ (forall y, exists ext yearExtents z,
         populateExtents c y = GArray ext
         /\ layout y (Int 0) ext = Some yearExtents
         /\ lengthOfExtents yearExtents = Some (Int z) /\ P z).

End Double.

(** Year lengths that are positive safe integers. *)
Definition positiveSafe (z : Z) : Prop := 0 < z <= maxSafeInteger.

(** Year lengths that are all [L]. *)
Definition constantLength (L : Z) (z : Z) : Prop := z = L.

(** The lengths of the Gregorian years. *)
Definition gregorianLength (z : Z) : Prop := z = 365 \/ z = 366.



(** The Gregorian default and the quarters of the test suite, as the
    constructor wires them before its first call of a setter. *)
Definition gregorianWired : Calendar :=
  wireFields DefaultCalendarOptions defaultPopulateExtents.

Definition quartersWired : Calendar :=
  wireFields (quartersOptions everyYearQuarters) everyYearQuarters.

(** The quarters calendar, as constructed over doubles. *)
Definition quartersCalendar64 : Calendar :=
  objectAfter
    (Double.newCalendar 1 (Some (quartersOptions everyYearQuarters))).

(** A moment [2^71] seconds before the start of the year, and a day
    [2^63] days after it. *)
Definition farPast : Z := - 2 ^ 71.

Definition farFuture : Z := 2 ^ 63.

(** * Properties *)

(** ** The monad *)

Lemma bind_Ret {A B} (m : M A) (k : A -> M B) c b c' :
  bind m k c = Ret b c' ->
  exists a c1, m c = Ret a c1 /\ k a c1 = Ret b c'.
Proof.
  unfold bind. destruct (m c) as [a c1| |]; [eauto|discriminate..].
Qed.

Lemma bind_Throw {A B} (m : M A) (k : A -> M B) c e c' :
  bind m k c = Throw e c' ->
  m c = Throw e c' \/ exists a c1, m c = Ret a c1 /\ k a c1 = Throw e c'.
Proof.
  unfold bind. destruct (m c) as [a c1|e1 c1|]; [eauto| |discriminate].
  intros [= -> ->]. by left.
Qed.

Lemma sameButByName_refl c : sameButByName c c.
Proof. by destruct c. Qed.

Lemma sameButByName_trans c1 c2 c3 :
  sameButByName c1 c2 -> sameButByName c2 c3 -> sameButByName c1 c3.
Proof.
  unfold sameButByName. intros -> ->. by destruct c1.
Qed.

Lemma sameButCaches_refl c : sameButCaches c c.
Proof. repeat split. by exists []. Qed.

Lemma sameButCaches_trans c1 c2 c3 :
  sameButCaches c1 c2 -> sameButCaches c2 c3 -> sameButCaches c1 c3.
Proof.
  intros (Hp & Hm & Hpos & l1 & Hl1) (Hp' & Hm' & Hpos' & l2 & Hl2).
  repeat split; try congruence.
  exists (l2 ++ l1). rewrite Hl2, Hl1. by rewrite app_assoc.
Qed.

Lemma sameButByName_caches c c' :
  sameButByName c c' ->
  sameButCaches c c' /\ extentsByStart c' = extentsByStart c
  /\ generatorCalls c' = generatorCalls c.
Proof.
  unfold sameButByName. intros ->. repeat split. by exists [].
Qed.

(** ** Extent resolution *)

(** The [map] callback against the pure layout: it returns exactly when
    every element is an object, it touches nothing but the by-name index,
    and what it throws is a [TypeError]. *)
Lemma mapExtents_outcome ext : forall year len index start c,
  match mapExtents year len index start ext c with
  | Ret rvs c' => layout year start ext = Some rvs /\ sameButByName c c'
  | Throw e c' =>
      layout year start ext = None /\ sameButByName c c'
      /\ isTypeError e = true
  | OutOfFuel => False
  end.
Proof.
  induction ext as [|v rest IH]; intros year len index start c; simpl.
  - split; [done|apply sameButByName_refl].
  - destruct v as [|p|e]; simpl.
    + unfold throw. split_and!; [done|apply sameButByName_refl|done].
    + unfold throw. split_and!; [done|apply sameButByName_refl|done].
    + unfold bind, modify, ret.
      set (c1 := set_extentsByName _ c).
      assert (sameButByName c c1) as Hc1 by (by destruct c).
      specialize (IH year len (S index)
                    (jadd start (toNumber (Extent.length e))) c1).
      destruct (mapExtents _ _ _ _ rest c1) as [rvs c'|e' c'|]; [| |done].
      * destruct IH as [-> H]. eauto using sameButByName_trans.
      * destruct IH as (-> & H & He). eauto using sameButByName_trans.
Qed.

Lemma layout_is_Some year ext : forall start,
  is_Some (layout year start ext) <-> passesValidation (GArray ext).
Proof.
  simpl. induction ext as [|v rest IH]; intros start; simpl.
  - split; [constructor|by eexists].
  - destruct v as [|p|e].
    + split; [by intros [? [=]]|]. intros H. inversion H as [|? ? [e He]]. done.
    + split; [by intros [? [=]]|]. intros H. inversion H as [|? ? [e He]]. done.
    + specialize (IH (jadd start (toNumber (Extent.length e)))).
      destruct (layout year _ rest) as [rvs|].
      * split; [|by eexists]. intros _. constructor; [by eexists|].
        apply IH. by eexists.
      * split; [by intros [? [=]]|]. intros H. inversion H; subst.
        by apply IH.
Qed.

(** Re-resolving a cached year is refused before the generator is called,
    and leaves the object as it was. *)
Lemma buildExtents_cached year c :
  is_Some (extentsByStart c !! year) ->
  buildExtents year c = Throw Error_already_cached c.
Proof.
  intros H. unfold buildExtents, bind, this.
  by destruct (decide (is_Some (extentsByStart c !! year))).
Qed.

(** Resolving a year that is not cached: the generator is called once;
    the year enters [extentsByStart] exactly when its list passes
    validation, and a failure is a [TypeError] that leaves
    [extentsByStart] as it was. *)
Lemma buildExtents_outcome year c :
  extentsByStart c !! year = None ->
  match buildExtents year c with
  | Ret _ c' =>
      exists ext rvs,
        populateExtents c year = GArray ext
        /\ layout year (Int 0) ext = Some rvs
        /\ extentsByStart c' = <[year := rvs]> (extentsByStart c)
        /\ generatorCalls c' = year :: generatorCalls c
        /\ sameButCaches c c'
  | Throw e c' =>
      isTypeError e = true
      /\ ~ passesValidation (populateExtents c year)
      /\ extentsByStart c' = extentsByStart c
      /\ generatorCalls c' = year :: generatorCalls c
      /\ sameButCaches c c'
  | OutOfFuel => False
  end.
Proof.
  intros Hnone. unfold buildExtents, bind, this, modify.
  destruct (decide (is_Some (extentsByStart c !! year))) as [[x Hx]|_];
    [congruence|].
  assert (sameButCaches c (log_call year c)) as Hlog
    by (repeat split; by exists [year]).
  destruct (populateExtents c year) as [ext|] eqn:Hgen.
  - pose proof (mapExtents_outcome ext year (length ext) 0%nat (Int 0)
                  (log_call year c)) as Hmap.
    destruct (mapExtents _ _ _ _ ext (log_call year c)) as [rvs c1|e c1|];
      [| |done].
    + destruct Hmap as [Hlay Hsame].
      apply sameButByName_caches in Hsame as (Hsame & Hstart & Hcalls).
      exists ext, rvs. split_and!; try done.
      * simpl. by rewrite Hstart.
      * eapply sameButCaches_trans; [exact Hlog|].
        eapply sameButCaches_trans; [exact Hsame|].
        repeat split. by exists [].
    + destruct Hmap as (Hlay & Hsame & He).
      apply sameButByName_caches in Hsame as (Hsame & Hstart & Hcalls).
      split_and!; try done.
      * intros Hv. apply (layout_is_Some year ext (Int 0)) in Hv.
        rewrite Hlay in Hv. by destruct Hv.
      * eapply sameButCaches_trans; [exact Hlog|exact Hsame].
  - unfold throw. split_and!; try done. auto.
Qed.

(** ** Relations preserved along a method call

    Whatever relation between the state before and the state after holds
    across [buildExtents] (and is a preorder) holds across every step that
    precedes the commit of a setter. *)
Section Frame.
Variable R : Calendar -> Calendar -> Prop.
Hypothesis R_refl : forall c, R c c.
Hypothesis R_trans : forall c1 c2 c3, R c1 c2 -> R c2 c3 -> R c1 c3.
Hypothesis R_buildExtents : forall year c c',
  finalState (buildExtents year c) = Some c' -> R c c'.

Lemma getLengthOfYear_frame year c c' :
  finalState (getLengthOfYear year c) = Some c' -> R c c'.
Proof using R_refl R_buildExtents.
  unfold getLengthOfYear, bind, this.
  destruct (decide (extentsByStart c !! year = None)) as [Hn|Hs].
  - pose proof (R_buildExtents year c) as HR.
    destruct (buildExtents year c) as [[] c1|e c1|]; simpl in *;
      [|intros [= <-]; auto|done].
    specialize (HR c1 eq_refl).
    destruct (extentsByStart c1 !! year) as [exts|];
      [destruct (last exts)|]; simpl; intros [= <-]; done.
  - unfold ret.
    destruct (extentsByStart c !! year) as [exts|];
      [destruct (last exts)|]; simpl; intros [= <-]; done.
Qed.

Lemma rollBackward_frame fuel : forall n thisYear total c c',
  finalState (rollBackward fuel n thisYear total c) = Some c' -> R c c'.
Proof using R_refl R_trans R_buildExtents.
  induction fuel as [|fuel IH]; intros n thisYear total c c'; simpl;
    destruct (jlt n (Int 0)); try (by intros [= <-]); try done.
  unfold bind.
  pose proof (getLengthOfYear_frame (thisYear - 1) c) as HR.
  destruct (getLengthOfYear (thisYear - 1) c) as [L c1|e c1|]; simpl in *;
    [|intros [= <-]; auto|done].
  intros H. apply IH in H. eauto.
Qed.

Lemma rollForward_frame fuel : forall n thisYear total c c',
  finalState (rollForward fuel n thisYear total c) = Some c' -> R c c'.
Proof using R_refl R_trans R_buildExtents.
  induction fuel as [|fuel IH]; intros n thisYear total c c'; simpl;
    destruct (jge n total); try (by intros [= <-]); try done.
  unfold bind.
  pose proof (getLengthOfYear_frame (thisYear + 1) c) as HR.
  destruct (getLengthOfYear (thisYear + 1) c) as [L c1|e c1|]; simpl in *;
    [|intros [= <-]; auto|done].
  intros H. apply IH in H. eauto.
Qed.

(** [setCurrentDay] is a sequence of resolutions followed, when nothing
    was thrown, by one commit of the three position fields. *)
Lemma setCurrentDay_frame fuel a c :
  match setCurrentDay fuel a c with
  | Ret _ c' => exists c1 n year total,
      R c c1 /\ c' = set_position n year total c1
  | Throw _ c' => R c c'
  | OutOfFuel => True
  end.
Proof using R_refl R_trans R_buildExtents.
  destruct a as [n|]; simpl; [|apply R_refl].
  unfold bind, this.
  pose proof (getLengthOfYear_frame (startYear c) c) as H0.
  destruct (getLengthOfYear (startYear c) c) as [L c0|e c0|]; simpl in *;
    [|auto|done].
  specialize (H0 c0 eq_refl).
  pose proof (rollBackward_frame fuel n (startYear c) L c0) as H1.
  destruct (rollBackward fuel n (startYear c) L c0)
    as [[[n1 y1] t1] c1|e c1|]; simpl in *; [|eauto|done].
  specialize (H1 c1 eq_refl).
  destruct (jge n1 t1).
  - destruct (decide (startYear c1 <> y1)); [unfold throw; eauto|].
    pose proof (rollForward_frame fuel n1 y1 t1 c1) as H2.
    destruct (rollForward fuel n1 y1 t1 c1)
      as [[[n2 y2] t2] c2|e c2|]; simpl in *; [|eauto|done].
    unfold modify. exists c2, n2, y2, t2. eauto.
  - unfold ret, modify. exists c1, n1, y1, t1. eauto.
Qed.

(** [setCurrentTime] throws nothing and commits one field. *)
Lemma setCurrentTime_frame fuel n c :
  match setCurrentTime fuel n c with
  | Ret _ c' => exists t, c' = set_currentTime t c
  | Throw _ _ => False
  | OutOfFuel => True
  end.
Proof.
  unfold setCurrentTime, bind, this.
  destruct (addDays fuel n (metricsDay c)); simpl; [|done].
  unfold modify. eauto.
Qed.

(** An operation that throws has only resolved years. *)
Lemma run_Throw_frame fuel op c e c' :
  run fuel op c = Throw e c' -> R c c'.
Proof using R_refl R_trans R_buildExtents.
  destruct op as [a|n|n|n]; simpl.
  - intros H. pose proof (setCurrentDay_frame fuel a c) as HR.
    by rewrite H in HR.
  - intros H. pose proof (setCurrentTime_frame fuel n c) as HR.
    by rewrite H in HR.
  - unfold adjustDay, bind, this. intros H.
    pose proof (setCurrentDay_frame fuel
                  (ANumber (jadd (currentDay c) n)) c) as HR.
    by rewrite H in HR.
  - unfold adjustTime, bind, this.
    pose proof (setCurrentDay_frame fuel
      (ANumber (jadd (currentDay c)
                  (jfloordiv (jadd (currentTime c) n) (metricsDay c)))) c)
      as HR.
    destruct (setCurrentDay _ _ c) as [[] c1|e1 c1|]; [| |done].
    + intros H. pose proof (setCurrentTime_frame fuel
                              (jadd (currentTime c) n) c1) as HT.
      by rewrite H in HT.
    + by intros [= <- <-].
Qed.

Hypothesis R_set_position : forall c n year total,
  R c (set_position n year total c).
Hypothesis R_set_currentTime : forall c t, R c (set_currentTime t c).

(** Every public operation, whatever its outcome. *)
Lemma run_frame fuel op c c' :
  finalState (run fuel op c) = Some c' -> R c c'.
Proof using All.
  destruct (run fuel op c) as [[] c1|e c1|] eqn:Hrun; simpl;
    [|intros [= <-]; eauto using run_Throw_frame|done].
  intros [= <-]. destruct op as [a|n|n|n]; simpl in Hrun.
  - pose proof (setCurrentDay_frame fuel a c) as HR.
    rewrite Hrun in HR. destruct HR as (c0 & n & y & t & HR & ->). eauto.
  - pose proof (setCurrentTime_frame fuel n c) as HR.
    rewrite Hrun in HR. destruct HR as (t & ->). eauto.
  - unfold adjustDay, bind, this in Hrun.
    pose proof (setCurrentDay_frame fuel
                  (ANumber (jadd (currentDay c) n)) c) as HR.
    rewrite Hrun in HR. destruct HR as (c0 & n0 & y & t & HR & ->). eauto.
  - unfold adjustTime, bind, this in Hrun.
    pose proof (setCurrentDay_frame fuel
      (ANumber (jadd (currentDay c)
                  (jfloordiv (jadd (currentTime c) n) (metricsDay c)))) c)
      as HR.
    destruct (setCurrentDay _ _ c) as [[] c2|e2 c2|]; [|done..].
    destruct HR as (c0 & n0 & y & t & HR & ->).
    pose proof (setCurrentTime_frame fuel (jadd (currentTime c) n)
                  (set_position n0 y t c0)) as HT.
    rewrite Hrun in HT. destruct HT as (t' & ->). eauto.
Qed.

(** The constructor: the wired object, then the two setters. *)
Lemma newCalendar_frame fuel arg c :
  newCalendar fuel arg = Ret tt c ->
  exists props gen,
    CalendarOptions.populateExtents props = Some gen
    /\ R (wireFields props gen) c.
Proof using All.
  unfold newCalendar.
  set (props := default DefaultCalendarOptions arg).
  destruct (CalendarOptions.populateExtents props) as [gen|] eqn:Hgen;
    [|done].
  destruct (CalendarOptions.startYear props) as [sy|]; [|done].
  intros H. exists props, gen. split; [done|].
  apply bind_Ret in H as ([] & c1 & H1 & H).
  apply bind_Ret in H as ([] & c2 & H2 & H).
  apply bind_Ret in H as (c3 & c4 & H3 & H).
  unfold this in H3. injection H3 as <- <-.
  assert (c = c2) as ->.
  { destruct (extentsByStart c2 !! startYear c2) as [exts|]; [|done].
    destruct (last exts); [|done]. by injection H. }
  apply (R_trans _ c1).
  - eapply (run_frame fuel (OpSetCurrentDay _)). simpl. by rewrite H1.
  - eapply (run_frame fuel (OpSetCurrentTime _)). simpl. by rewrite H2.
Qed.
End Frame.

(** ** Validation of the generated list *)

Lemma mapExtents_first_primitive pre : forall year len index start p post c,
  Forall (fun v => exists e, v = EObject e) pre ->
  thrown (mapExtents year len index start (pre ++ EPrim p :: post) c)
  = Some (TypeError_element (index + length pre) len).
Proof.
  induction pre as [|v pre IH]; intros year len index start p post c Hpre.
  - simpl. do 2 f_equal. lia.
  - inversion Hpre as [|? ? [e ->] Hpre']; subst. simpl.
    unfold bind, modify.
    specialize (IH year len (S index)
                  (jadd start (toNumber (Extent.length e))) p post
                  (set_extentsByName
                     (indexByName year (IExt.mk year start e)) c) Hpre').
    destruct (mapExtents _ _ _ _ (pre ++ _) _) as [rvs c'|e' c'|];
      simpl in *; try done.
    rewrite IH. do 2 f_equal. lia.
Qed.

(** C4, as amended: resolving a year that is not cached signals a
    [TypeError] when the generator returns a value that is not an array,
    and signals a [TypeError] naming the index of the first element whose
    [typeof] is not ["object"] when the elements before it are objects. *)
Theorem buildExtents_rejects year c :
  extentsByStart c !! year = None ->
  (populateExtents c year = GOther ->
   thrown (buildExtents year c) = Some TypeError_not_array)
  /\ (forall pre p post,
        populateExtents c year = GArray (pre ++ EPrim p :: post) ->
        Forall (fun v => exists e, v = EObject e) pre ->
        thrown (buildExtents year c)
        = Some (TypeError_element (length pre)
                  (length (pre ++ EPrim p :: post)))).
Proof.
  intros Hnone. unfold buildExtents, bind, this, modify.
  destruct (decide (is_Some (extentsByStart c !! year))) as [[x Hx]|_];
    [congruence|].
  split.
  - intros ->. done.
  - intros pre p post -> Hpre.
    pose proof (mapExtents_first_primitive pre year
                  (length (pre ++ EPrim p :: post)) 0%nat (Int 0) p post
                  (log_call year c) Hpre) as H.
    destruct (mapExtents _ _ _ _ _ _) as [rvs c'|e' c'|]; simpl in *;
      try done.
Qed.

Lemma buildExtents_rejects_witness :
  thrown (buildExtents 2023
            (wireFields (quartersOptions notArrayIn2023) notArrayIn2023))
  = Some TypeError_not_array
  /\ thrown (buildExtents 2024
               (wireFields (quartersOptions badElementIn2024)
                  badElementIn2024))
     = Some (TypeError_element 1 2).
Proof.
  split.
  - apply (buildExtents_rejects 2023
             (wireFields (quartersOptions notArrayIn2023) notArrayIn2023));
      reflexivity.
  - apply (proj2 (buildExtents_rejects 2024
                    (wireFields (quartersOptions badElementIn2024)
                       badElementIn2024) eq_refl)
             [extent "Qtr1" 90] (PNumber (Int 7)) []).
    + reflexivity.
    + repeat constructor. by eexists.
Defined.

(** C4, as stated, fails: an object with neither a [name] nor a [length]
    lacks the extent shape, and resolving the year returns normally. *)
Lemma shapeless_object_accepted :
  let c := wireFields (quartersOptions emptyObject) emptyObject in
  populateExtents c 2022 = GArray [EObject (Extent.mk None None)]
  /\ hasExtentShape (EObject (Extent.mk None None)) = false
  /\ returned (buildExtents 2022 c) = true
  /\ cachedIn 2022 (buildExtents 2022 c) = true.
Proof. vm_compute. done. Qed.

(** ** Errors and the state they leave *)

Lemma cacheGrows_refl c : cacheGrows c c.
Proof. intros y. by left. Qed.

Lemma resolvedOnly_refl c : resolvedOnly c c.
Proof. split; [apply sameButCaches_refl|apply cacheGrows_refl]. Qed.

Lemma resolvedOnly_trans c1 c2 c3 :
  resolvedOnly c1 c2 -> resolvedOnly c2 c3 -> resolvedOnly c1 c3.
Proof.
  intros [Hs12 Hg12] [Hs23 Hg23].
  split; [eauto using sameButCaches_trans|].
  intros y. destruct Hs12 as (Hgen & _).
  destruct (Hg23 y) as [H23|(Hn2 & ext & rvs & Hg & Hl & H3)].
  - rewrite H23. apply Hg12.
  - destruct (Hg12 y) as [H12|(Hn1 & ext' & rvs' & _ & _ & H2)];
      [|congruence].
    right. split; [congruence|]. exists ext, rvs. by rewrite <- Hgen.
Qed.

Lemma resolvedOnly_buildExtents year c c' :
  finalState (buildExtents year c) = Some c' -> resolvedOnly c c'.
Proof.
  destruct (extentsByStart c !! year) as [exts|] eqn:Hc.
  - rewrite buildExtents_cached by eauto. intros [= <-].
    apply resolvedOnly_refl.
  - pose proof (buildExtents_outcome year c Hc) as H.
    destruct (buildExtents year c) as [[] c1|e c1|]; simpl; [| |done];
      intros [= <-].
    + destruct H as (ext & rvs & Hg & Hl & Hstart & _ & Hsame).
      split; [done|]. intros y. rewrite Hstart.
      destruct (decide (year = y)) as [<-|Hne].
      * right. split; [done|]. exists ext, rvs.
        by rewrite lookup_insert_eq.
      * left. by rewrite lookup_insert_ne.
    + destruct H as (_ & _ & Hstart & _ & Hsame).
      split; [done|]. intros y. left. by rewrite Hstart.
Qed.

Lemma namedExtent_indexByName c year rv name y :
  namedExtent (set_extentsByName (indexByName year rv) c) name y
  = if decide (name = nameKey (IExt.originalExt rv) /\ y = year)
    then Some rv else namedExtent c name y.
Proof.
  unfold namedExtent, indexByName. simpl.
  set (key := nameKey (IExt.originalExt rv)).
  destruct (extentsByName c !! key) as [years|] eqn:Hk.
  - destruct (decide (name = key)) as [->|Hne].
    + rewrite lookup_insert_eq, Hk.
      destruct (decide (y = year)) as [->|Hy].
      * rewrite lookup_insert_eq. by rewrite decide_True.
      * rewrite lookup_insert_ne by done. rewrite decide_False; [done|].
        by intros [_ ?].
    + rewrite lookup_insert_ne by done. rewrite decide_False; [done|].
      by intros [? _].
  - destruct (decide (name = key)) as [->|Hne].
    + rewrite lookup_insert_eq, Hk.
      destruct (decide (y = year)) as [->|Hy].
      * rewrite lookup_singleton_eq. by rewrite decide_True.
      * rewrite lookup_singleton_ne by done. rewrite decide_False; [done|].
        by intros [_ ?].
    + rewrite lookup_insert_ne by done. rewrite decide_False; [done|].
      by intros [? _].
Qed.

(** What the [map] callback does to the by-name index: entries of other
    years are left alone, and an entry of this year is either left alone
    or replaced by a resolved extent of the same name. *)
Lemma mapExtents_namedExtent ext : forall year len index start c c' name y,
  finalState (mapExtents year len index start ext c) = Some c' ->
  (y <> year -> namedExtent c' name y = namedExtent c name y)
  /\ (forall rvs, mapExtents year len index start ext c = Ret rvs c' ->
        namedExtent c' name year = namedExtent c name year
        \/ exists rv, rv ∈ rvs /\ nameKey (IExt.originalExt rv) = name
                      /\ namedExtent c' name year = Some rv).
Proof.
  induction ext as [|v rest IH]; intros year len index start c c' name y;
    simpl.
  - intros [= <-]. split; [done|]. intros rvs _. by left.
  - destruct v as [|p|e]; simpl.
    + intros [= <-]. split; [done|]. by intros rvs [=].
    + intros [= <-]. split; [done|]. by intros rvs [=].
    + unfold bind, modify.
      set (rv := IExt.mk year start e).
      set (c1 := set_extentsByName (indexByName year rv) c).
      specialize (IH year len (S index)
                    (jadd start (toNumber (Extent.length e))) c1).
      destruct (mapExtents _ _ _ _ rest c1) as [rvs c2|e2 c2|] eqn:Hrest;
        simpl; [| |done]; intros [= <-].
      * destruct (IH c2 name y eq_refl) as [Hother Hthis]. split.
        -- intros Hy. rewrite (Hother Hy). unfold c1.
           rewrite namedExtent_indexByName. rewrite decide_False; [done|].
           by intros [_ ?].
        -- intros rvs' [= <-].
           destruct (Hthis rvs eq_refl) as [Hsame|(rv' & Hin & Hk & Hn)].
           ++ rewrite Hsame. unfold c1. rewrite namedExtent_indexByName.
              destruct (decide (name = nameKey (IExt.originalExt rv) /\ _))
                as [[-> _]|]; [|by left].
              right. exists rv. split_and!; [apply list_elem_of_here|done..].
           ++ right. exists rv'. split_and!; [|done..].
              by apply list_elem_of_further.
      * destruct (IH c2 name y eq_refl) as [Hother _]. split; [|done].
        intros Hy. rewrite (Hother Hy). unfold c1.
        rewrite namedExtent_indexByName. rewrite decide_False; [done|].
        by intros [_ ?].
Qed.




(** A resolution writes the by-name index under its own year only. *)
Lemma buildExtents_namedExtent year c c' name y :
  finalState (buildExtents year c) = Some c' ->
  y <> year -> namedExtent c' name y = namedExtent c name y.
Proof.
  unfold buildExtents, bind, this, modify.
  destruct (decide (is_Some (extentsByStart c !! year)));
    [by intros [= <-]|].
  destruct (populateExtents c year) as [ext|]; [|by intros [= <-]].
  pose proof (mapExtents_namedExtent ext year (length ext) 0%nat (Int 0)
                (log_call year c)) as Hnamed.
  destruct (mapExtents _ _ _ _ ext (log_call year c)) as [rvs c1|e c1|];
    simpl; [| |done]; intros [= <-] Hne;
    destruct (Hnamed c1 name y eq_refl) as [H _]; exact (H Hne).
Qed.






(** ** One generator call per year *)












(** ** Years of positive length *)

Lemma jlt_after_adding n z :
  jlt n (Int 0) = true -> jlt (jadd n (Int z)) (Int z) = true.
Proof.
  destruct n as [x|[]|]; simpl; try done.
  intros H. apply Z.ltb_lt in H. apply Z.ltb_lt. lia.
Qed.

Lemma jlt_not_jge n t : jlt n t = true -> jge n t = false.
Proof.
  destruct n as [x|[]|], t as [y|[]|]; simpl; try done.
  intros H. apply Z.ltb_lt in H. apply Z.leb_gt. lia.
Qed.

Lemma getLengthOfYear_cached year c yearExtents L :
  extentsByStart c !! year = Some yearExtents ->
  lengthOfExtents yearExtents = Some L ->
  getLengthOfYear year c = Ret L c.
Proof.
  intros Hc Hlen. unfold getLengthOfYear, bind, this.
  destruct (decide (extentsByStart c !! year = None)); [congruence|].
  unfold ret. rewrite Hc. unfold lengthOfExtents in Hlen.
  destruct (last yearExtents); [|done]. by injection Hlen as ->.
Qed.

Lemma getLengthOfYear_resolved year c c1 :
  extentsByStart c !! year = None ->
  buildExtents year c = Ret tt c1 ->
  getLengthOfYear year c = getLengthOfYear year c1.
Proof.
  intros Hn Hb. pose proof (buildExtents_outcome year c Hn) as H.
  rewrite Hb in H. destruct H as (ext & rvs & _ & _ & Hstart & _).
  unfold getLengthOfYear, bind, this.
  destruct (decide (extentsByStart c !! year = None)); [|done].
  rewrite Hb.
  destruct (decide (extentsByStart c1 !! year = None)) as [Hn1|]; [|done].
  rewrite Hstart, lookup_insert_eq in Hn1. done.
Qed.

(** With positive years, reading the length of any year returns a
    positive integer, and the years stay positive. *)
Lemma getLengthOfYear_positive year c :
  positiveYears c ->
  exists z c',
    getLengthOfYear year c = Ret (Int z) c'
    /\ 0 < z /\ positiveYears c' /\ sameButCaches c c'.
Proof.
  intros [Hcache Hgen].
  destruct (extentsByStart c !! year) as [exts|] eqn:Hc.
  - destruct (Hcache year exts Hc) as (z & Hlen & Hz).
    exists z, c. rewrite (getLengthOfYear_cached year c exts (Int z)) by done.
    split_and!; try done. apply sameButCaches_refl.
  - pose proof (buildExtents_outcome year c Hc) as H.
    destruct (Hgen year) as (ext & exts & Hg & Hl & z & Hlen & Hz).
    destruct (buildExtents year c) as [[] c1|e c1|] eqn:Hb; [| |done].
    + destruct H as (ext' & rvs & Hg' & Hl' & Hstart & _ & Hsame).
      assert (rvs = exts) as -> by congruence.
      exists z, c1.
      rewrite (getLengthOfYear_resolved year c c1 Hc Hb).
      rewrite (getLengthOfYear_cached year c1 exts (Int z));
        [|by rewrite Hstart, lookup_insert_eq|done].
      split_and!; try done. split.
      * intros y exts'. rewrite Hstart.
        destruct (decide (year = y)) as [<-|Hne].
        -- rewrite lookup_insert_eq. intros [= <-]. by exists z.
        -- rewrite lookup_insert_ne by done. apply Hcache.
      * destruct Hsame as (-> & _). apply Hgen.
    + destruct H as (_ & Hnv & _). exfalso. apply Hnv. rewrite Hg.
      apply (layout_is_Some year ext (Int 0)). by eexists.
Qed.

(** The backward loop with positive years: it throws nothing, and when
    it returns, either it did not run at all or the year went down and
    the day is below the length of the year reached. *)
Lemma rollBackward_positive fuel : forall n thisYear total c,
  positiveYears c ->
  match rollBackward fuel n thisYear total c with
  | Ret (n', year', total') c' =>
      positiveYears c' /\ sameButCaches c c'
      /\ jlt n' (Int 0) = false
      /\ ((n' = n /\ year' = thisYear /\ total' = total /\ c' = c)
          \/ (year' < thisYear /\ jlt n' total' = true))
  | Throw _ _ => False
  | OutOfFuel => True
  end.
Proof.
  induction fuel as [|fuel IH]; intros n thisYear total c Hpos; simpl;
    destruct (jlt n (Int 0)) eqn:Hneg; try done.
  - unfold ret. split_and!; try done; [apply sameButCaches_refl|by left].
  - unfold bind.
    destruct (getLengthOfYear_positive (thisYear - 1) c Hpos)
      as (z & c1 & -> & Hz & Hpos1 & Hsame1).
    specialize (IH (jadd n (Int z)) (thisYear - 1) (Int z) c1 Hpos1).
    destruct (rollBackward fuel _ _ _ c1) as [[[n' y'] t'] c'|e c'|];
      [|done..].
    destruct IH as (Hpos' & Hsame' & Hnn & Hcase).
    split_and!; try done; [by eapply sameButCaches_trans|].
    right. destruct Hcase as [(-> & -> & -> & ->)|[Hy Hlt]].
    + split; [lia|]. by apply jlt_after_adding.
    + split; [lia|done].
  - unfold ret. split_and!; try done; [apply sameButCaches_refl|by left].
Qed.

(** The forward loop with positive years throws nothing. *)
Lemma rollForward_positive fuel : forall n thisYear total c,
  positiveYears c ->
  match rollForward fuel n thisYear total c with
  | Ret (n', year', total') c' =>
      positiveYears c' /\ sameButCaches c c' /\ jge n' total' = false
  | Throw _ _ => False
  | OutOfFuel => True
  end.
Proof.
  induction fuel as [|fuel IH]; intros n thisYear total c Hpos; simpl;
    destruct (jge n total) eqn:Hge; try done.
  - unfold ret. split_and!; try done. apply sameButCaches_refl.
  - unfold bind.
    destruct (getLengthOfYear_positive (thisYear + 1) c Hpos)
      as (z & c1 & -> & Hz & Hpos1 & Hsame1).
    specialize (IH (jsub n (Int z)) (thisYear + 1) (Int z) c1 Hpos1).
    destruct (rollForward fuel _ _ _ c1) as [[[n' y'] t'] c'|e c'|];
      [|done..].
    destruct IH as (Hpos' & Hsame' & Hlt).
    split_and!; try done. by eapply sameButCaches_trans.
  - unfold ret. split_and!; try done. apply sameButCaches_refl.
Qed.

(** ** The setters over doubles

    What holds of the setters when every sum is rounded, within the
    safe integers, and where the rounding stops a loop or trips the
    consistency check beyond them. *)

Lemma roundToDouble_small a : 0 <= a < 2 ^ 53 -> roundToDouble a = a.
Proof.
  intros Ha. unfold roundToDouble.
  destruct (Z.eq_dec a 0) as [->|Hne]; [reflexivity|].
  assert (Z.log2 a < 53) as Hlog by (apply Z.log2_lt_pow2; lia).
  destruct (Z.leb_spec (Z.log2 a - 52) 0); [done|lia].
Qed.

Lemma roundToDouble_large a : 2 ^ 53 <= a -> 2 ^ 53 <= roundToDouble a.
Proof.
  intros Ha. unfold roundToDouble.
  assert (53 <= Z.log2 a) as Hlog by (apply Z.log2_le_pow2; lia).
  destruct (Z.leb_spec (Z.log2 a - 52) 0); [lia|].
  set (e := Z.log2 a - 52) in *.
  assert (0 < 2 ^ e) as He by (apply Z.pow_pos_nonneg; lia).
  assert (2 ^ 52 * 2 ^ e <= a) as Hlow.
  { rewrite <- Z.pow_add_r by lia. replace (52 + e) with (Z.log2 a) by lia.
    apply Z.log2_spec. lia. }
  assert (2 ^ 52 <= a / 2 ^ e) as Hq by (apply Z.div_le_lower_bound; lia).
  assert (2 <= 2 ^ e) as He2.
  { change 2 with (2 ^ 1) at 1. apply Z.pow_le_mono_r; lia. }
  destruct (_ || _); nia.
Qed.

(** Every integer of magnitude at most [2^53] is a double. *)
Lemma binary64_exact z : - 2 ^ 53 <= z <= 2 ^ 53 -> binary64 z = Int z.
Proof.
  intros Hz. unfold binary64.
  assert (roundToDouble (Z.abs z) = Z.abs z) as ->.
  { destruct (Z.eq_dec (Z.abs z) (2 ^ 53)) as [->|Hne]; [reflexivity|].
    apply roundToDouble_small. lia. }
  assert (2 ^ 53 < 2 ^ 1024) as Hbig by (apply Z.pow_lt_mono_r; lia).
  destruct (Z.leb_spec (2 ^ 1024) (Z.abs z)); [lia|].
  f_equal. lia.
Qed.

Lemma binary64_safe z : safeInteger z -> binary64 z = Int z.
Proof.
  unfold safeInteger, maxSafeInteger. intros Hz. apply binary64_exact. lia.
Qed.

(** Beyond [2^53] the rounded number stays beyond [2^53], on its side of
    zero. *)
Lemma binary64_below z :
  z <= - 2 ^ 53 ->
  binary64 z = Inf false \/ exists r, binary64 z = Int r /\ r <= - 2 ^ 53.
Proof.
  intros Hz. unfold binary64.
  pose proof (roundToDouble_large (Z.abs z) ltac:(lia)) as Hr.
  assert (0 < 2 ^ 53) as H53 by (apply Z.pow_pos_nonneg; lia).
  destruct (Z.leb_spec (2 ^ 1024) (roundToDouble (Z.abs z))).
  - left. destruct (Z.ltb_spec 0 z); [lia|done].
  - right. eexists. split; [reflexivity|]. rewrite Z.sgn_neg by lia. lia.
Qed.

(** A sum of integers whose exact result is safe is exact. *)
Lemma dadd_safe x y :
  safeInteger (x + y) -> dadd (Int x) (Int y) = Int (x + y).
Proof. intros H. simpl. by apply binary64_safe. Qed.

(** The sums of doubles agree with the sums of the Standard Library's
    specification of IEEE 754 on the pairs of [sumsChecked]. *)
Example dadd_agrees_with_the_specification :
  forallb
    (fun p =>
       sameNumber (dadd (Int p.1) (Int p.2))
         (ofSpecFloat
            (SpecFloat.SFadd 53 1024 (toSpecFloat p.1) (toSpecFloat p.2))))
    sumsChecked
  = true.
Proof. vm_compute. reflexivity. Qed.

(** The floor of the exact quotient is [Math.floor] of the quotient of
    the specification on the pairs of [quotientsChecked]. *)
Example floor_of_quotient_agrees_with_the_specification :
  forallb
    (fun p =>
       sameNumber (jfloordiv (Int p.1) (Int p.2))
         (ofSpecFloat
            (SpecFloat.SFdiv 53 1024 (toSpecFloat p.1) (toSpecFloat p.2))))
    quotientsChecked
  = true.
Proof. vm_compute. reflexivity. Qed.

(** The callback over doubles against the rounded layout. *)
Lemma mapExtents64_outcome ext : forall year len index start c,
  match Double.mapExtents year len index start ext c with
  | Ret rvs c' =>
      Double.layout year start ext = Some rvs /\ sameButByName c c'
  | Throw e c' =>
      Double.layout year start ext = None /\ sameButByName c c'
      /\ isTypeError e = true
  | OutOfFuel => False
  end.
Proof.
  induction ext as [|v rest IH]; intros year len index start c; simpl.
  - split; [done|apply sameButByName_refl].
  - destruct v as [|p|e]; simpl.
    + unfold throw. split_and!; [done|apply sameButByName_refl|done].
    + unfold throw. split_and!; [done|apply sameButByName_refl|done].
    + unfold bind, modify, ret.
      set (c1 := set_extentsByName _ c).
      assert (sameButByName c c1) as Hc1 by (by destruct c).
      specialize (IH year len (S index)
                    (dadd start (toNumber (Extent.length e))) c1).
      destruct (Double.mapExtents _ _ _ _ rest c1) as [rvs c'|e' c'|];
        [| |done].
      * destruct IH as [-> H]. eauto using sameButByName_trans.
      * destruct IH as (-> & H & He). eauto using sameButByName_trans.
Qed.

(** Reading the length of a year over doubles: a cached year is read
    from the cache, and a year that is not cached and whose list passes
    validation is resolved first. *)
Lemma getLengthOfYear64_outcome year c :
  (forall exts,
      extentsByStart c !! year = Some exts ->
      Double.getLengthOfYear year c
      = match Double.lengthOfExtents exts with
        | Some L => Ret L c
        | None => Throw TypeError_property c
        end)
  /\ (forall ext exts,
        extentsByStart c !! year = None ->
        populateExtents c year = GArray ext ->
        Double.layout year (Int 0) ext = Some exts ->
        exists c',
          sameButCaches c c'
          /\ extentsByStart c' = <[year := exts]> (extentsByStart c)
          /\ Double.getLengthOfYear year c
             = match Double.lengthOfExtents exts with
               | Some L => Ret L c'
               | None => Throw TypeError_property c'
               end).
Proof.
  split.
  - intros exts Hc. unfold Double.getLengthOfYear, bind, this.
    destruct (decide (extentsByStart c !! year = None)); [congruence|].
    unfold ret. rewrite Hc. unfold Double.lengthOfExtents.
    by destruct (last exts).
  - intros ext exts Hc Hg Hl.
    unfold Double.getLengthOfYear, Double.buildExtents, bind, this, modify.
    destruct (decide (extentsByStart c !! year = None)) as [_|]; [|done].
    destruct (decide (is_Some (extentsByStart c !! year))) as [[x Hx]|_];
      [congruence|].
    rewrite Hg.
    pose proof (mapExtents64_outcome ext year (length ext) 0%nat (Int 0)
                  (log_call year c)) as Hmap.
    destruct (Double.mapExtents _ _ _ _ ext (log_call year c))
      as [rvs c1|e c1|]; [| |done].
    + destruct Hmap as [Hlay Hsame].
      assert (rvs = exts) as -> by congruence.
      apply sameButByName_caches in Hsame as (Hsame & Hstart & Hcalls).
      exists (set_extentsByStart <[year := exts]> c1).
      split_and!.
      * assert (sameButCaches c (log_call year c)) as Hlog
          by (repeat split; by exists [year]).
        eapply sameButCaches_trans; [exact Hlog|].
        eapply sameButCaches_trans; [exact Hsame|].
        repeat split. by exists [].
      * simpl. by rewrite Hstart.
      * simpl. rewrite lookup_insert_eq.
        destruct (decide (Some exts = None)) as [Hn|_]; [done|].
        unfold ret, Double.lengthOfExtents. by destruct (last exts).
    + destruct Hmap as (Hlay & _). congruence.
Qed.

(** With year lengths satisfying [P], reading the length of any year
    returns such a length and keeps the property. *)
Lemma getLengthOfYear64_yearLengths P year c :
  Double.yearLengths P c ->
  exists z c',
    Double.getLengthOfYear year c = Ret (Int z) c'
    /\ P z /\ Double.yearLengths P c' /\ sameButCaches c c'.
Proof.
  intros [Hcache Hgen].
  destruct (getLengthOfYear64_outcome year c) as [Hhit Hmiss].
  destruct (extentsByStart c !! year) as [exts|] eqn:Hc.
  - destruct (Hcache year exts Hc) as (z & Hlen & Hz).
    exists z, c. rewrite (Hhit exts eq_refl), Hlen.
    split_and!; try done. apply sameButCaches_refl.
  - destruct (Hgen year) as (ext & exts & z & Hg & Hl & Hlen & Hz).
    destruct (Hmiss ext exts eq_refl Hg Hl) as (c' & Hsame & Hstart & ->).
    rewrite Hlen. exists z, c'. split_and!; try done. split.
    + intros y exts'. rewrite Hstart.
      destruct (decide (year = y)) as [<-|Hne].
      * rewrite lookup_insert_eq. intros [= <-]. by exists z.
      * rewrite lookup_insert_ne by done. apply Hcache.
    + destruct Hsame as (-> & _). apply Hgen.
Qed.


(** Adding a positive safe length to a negative number gives a number
    below that length: a sum of at most [2^53] is exact, and a sum
    below [-2^53] stays negative. *)
Lemma dadd_below_length n z :
  positiveSafe z ->
  jlt n (Int 0) = true -> jlt (dadd n (Int z)) (Int z) = true.
Proof.
  unfold positiveSafe, maxSafeInteger. intros Hz.
  assert (0 < 2 ^ 53) as H53 by (apply Z.pow_pos_nonneg; lia).
  destruct n as [x|[]|]; simpl; try done.
  intros Hx. apply Z.ltb_lt in Hx.
  destruct (Z_le_gt_dec (x + z) (- 2 ^ 53)) as [Hlow|Hlow].
  - destruct (binary64_below (x + z) Hlow) as [->|(r & -> & Hr)]; [done|].
    simpl. apply Z.ltb_lt. lia.
  - rewrite binary64_exact by lia. simpl. apply Z.ltb_lt. lia.
Qed.

(** The backward loop over doubles with positive safe year lengths: it
    throws nothing, and when it returns, either it did not run at all
    or the day is below the length of the year reached. *)
Lemma rollBackward64_safe fuel : forall n thisYear total c,
  Double.yearLengths positiveSafe c ->
  match Double.rollBackward fuel n thisYear total c with
  | Ret (n', year', total') c' =>
      Double.yearLengths positiveSafe c' /\ sameButCaches c c'
      /\ jlt n' (Int 0) = false
      /\ ((n' = n /\ year' = thisYear /\ total' = total /\ c' = c)
          \/ jlt n' total' = true)
  | Throw _ _ => False
  | OutOfFuel => True
  end.
Proof.
  induction fuel as [|fuel IH]; intros n thisYear total c Hpos; simpl;
    destruct (jlt n (Int 0)) eqn:Hneg; try done.
  - unfold ret. split_and!; try done; [apply sameButCaches_refl|by left].
  - unfold bind.
    destruct (getLengthOfYear64_yearLengths positiveSafe
                (yearBefore thisYear) c Hpos)
      as (z & c1 & -> & Hz & Hpos1 & Hsame1).
    specialize (IH (dadd n (Int z)) (yearBefore thisYear) (Int z) c1 Hpos1).
    destruct (Double.rollBackward fuel _ _ _ c1) as [[[n' y'] t'] c'|e c'|];
      [|done..].
    destruct IH as (Hpos' & Hsame' & Hnn & Hcase).
    split_and!; try done; [by eapply sameButCaches_trans|].
    right. destruct Hcase as [(-> & -> & -> & ->)|Hlt]; [|done].
    by apply dadd_below_length.
  - unfold ret. split_and!; try done; [apply sameButCaches_refl|by left].
Qed.

Lemma rollForward64_safe fuel : forall n thisYear total c,
  Double.yearLengths positiveSafe c ->
  match Double.rollForward fuel n thisYear total c with
  | Ret (n', year', total') c' =>
      Double.yearLengths positiveSafe c' /\ sameButCaches c c'
      /\ jge n' total' = false
  | Throw _ _ => False
  | OutOfFuel => True
  end.
Proof.
  induction fuel as [|fuel IH]; intros n thisYear total c Hpos; simpl;
    destruct (jge n total) eqn:Hge; try done.
  - unfold ret. split_and!; try done. apply sameButCaches_refl.
  - unfold bind.
    destruct (getLengthOfYear64_yearLengths positiveSafe
                (yearAfter thisYear) c Hpos)
      as (z & c1 & -> & Hz & Hpos1 & Hsame1).
    specialize (IH (dsub n (Int z)) (yearAfter thisYear) (Int z) c1 Hpos1).
    destruct (Double.rollForward fuel _ _ _ c1) as [[[n' y'] t'] c'|e c'|];
      [|done..].
    destruct IH as (Hpos' & Hsame' & Hlt).
    split_and!; try done. by eapply sameButCaches_trans.
  - unfold ret. split_and!; try done. apply sameButCaches_refl.
Qed.



Lemma quartersWired_yearLengths :
  Double.yearLengths positiveSafe quartersWired.
Proof.
  split.
  - intros y exts H. simpl in H. by rewrite lookup_empty in H.
  - intros y. eexists _, _, _. split_and!; [reflexivity..|].
    split; vm_compute; [reflexivity|discriminate].
Qed.



(** The time loop over doubles, from a safe [n] and with a safe day
    length: every sum is exact. *)
Lemma addDays64_reaches day fuel : forall n,
  0 < day <= maxSafeInteger ->
  - maxSafeInteger <= n ->
  (Z.to_nat (- n) <= fuel)%nat ->
  exists r, Double.addDays fuel (Int n) (Int day) = Some (Int r)
            /\ 0 <= r /\ r mod day = n mod day.
Proof.
  induction fuel as [|fuel IH]; intros n Hday Hlow Hfuel; simpl;
    destruct (n <? 0) eqn:Hneg;
    try (apply Z.ltb_lt in Hneg); try (apply Z.ltb_ge in Hneg).
  - lia.
  - exists n. done.
  - rewrite binary64_safe by (unfold safeInteger; lia).
    destruct (IH (n + day) Hday) as (r & Hr & Hr0 & Hmod); [lia..|].
    exists r. split_and!; [done..|].
    rewrite Hmod. rewrite <- (Z_mod_plus_full n 1 day). f_equal. lia.
  - exists n. done.
Qed.

Lemma setCurrentTime64_returns n day c fuel :
  metrics c !! "day" = Some day ->
  0 < day <= maxSafeInteger ->
  - maxSafeInteger <= n ->
  (Z.to_nat (- n) <= fuel)%nat ->
  Double.setCurrentTime fuel (Int n) c
  = Ret tt (set_currentTime (Int (Z.modulo n day)) c).
Proof.
  intros Hm Hday Hlow Hfuel.
  unfold Double.setCurrentTime, bind, this, metricsDay.
  rewrite Hm. cbn [toNumber].
  destruct (addDays64_reaches day fuel n Hday Hlow Hfuel)
    as (r & -> & Hr & Hmod).
  unfold modify. simpl.
  assert ((day =? 0) = false) as -> by (apply Z.eqb_neq; lia).
  by rewrite Z.rem_mod_nonneg, Hmod by lia.
Qed.

(** C9, as amended: with a positive day length that is a safe integer,
    and for every integer [n] from [-(2^53 - 1)] upwards,
    [setCurrentTime(n)] returns, sets the current time to the
    mathematical modulus [n mod metrics["day"]], which lies in
    [0, metrics["day"]) also for negative [n], and leaves the current
    day, the start year, the total days and both cache views
    unchanged. *)
Theorem setCurrentTime_modulus n day c fuel :
  metrics c !! "day" = Some day ->
  0 < day <= maxSafeInteger ->
  - maxSafeInteger <= n ->
  (Z.to_nat (- n) <= fuel)%nat ->
  exists c',
    Double.setCurrentTime fuel (Int n) c = Ret tt c'
    /\ currentTime c' = Int (Z.modulo n day)
    /\ 0 <= Z.modulo n day < day
    /\ currentDay c' = currentDay c
    /\ startYear c' = startYear c
    /\ totalDays c' = totalDays c
    /\ extentsByStart c' = extentsByStart c
    /\ extentsByName c' = extentsByName c.
Proof.
  intros Hm Hday Hlow Hfuel.
  exists (set_currentTime (Int (Z.modulo n day)) c).
  split; [by apply setCurrentTime64_returns|].
  split_and!; try done; apply Z.mod_pos_bound; lia.
Qed.

Lemma setCurrentTime_modulus_witness :
  exists c',
    Double.setCurrentTime 50 (Int (-50)) gregorianWired = Ret tt c'
    /\ currentTime c' = Int (Z.modulo (-50) 86400)
    /\ 0 <= Z.modulo (-50) 86400 < 86400
    /\ currentDay c' = currentDay gregorianWired
    /\ startYear c' = startYear gregorianWired
    /\ totalDays c' = totalDays gregorianWired
    /\ extentsByStart c' = extentsByStart gregorianWired
    /\ extentsByName c' = extentsByName gregorianWired.
Proof.
  apply (setCurrentTime_modulus (-50) 86400 gregorianWired 50).
  - reflexivity.
  - split; vm_compute; [reflexivity|discriminate].
  - vm_compute. discriminate.
  - vm_compute. lia.
Defined.

Lemma addDays64_absorbed fuel :
  Double.addDays fuel (Int farPast) (Int 86400) = None.
Proof.
  assert (jlt (Int farPast) (Int 0) = true) as Hneg
    by (vm_compute; reflexivity).
  assert (dadd (Int farPast) (Int 86400) = Int farPast) as Hsum
    by (vm_compute; reflexivity).
  induction fuel as [|fuel IH].
  - change (Double.addDays 0 (Int farPast) (Int 86400))
      with (if jlt (Int farPast) (Int 0) then None else Some (Int farPast)).
    by rewrite Hneg.
  - change (Double.addDays (S fuel) (Int farPast) (Int 86400))
      with (if jlt (Int farPast) (Int 0)
            then Double.addDays fuel (dadd (Int farPast) (Int 86400))
                   (Int 86400)
            else Some (Int farPast)).
    by rewrite Hneg, Hsum.
Qed.

(** C9, as stated, fails.  The default day has 86400 seconds, and
    [-2^71 + 86400] is rounded back to [-2^71]: the loop
    [while (n < 0) n += this.metrics["day"]] makes no progress, and
    [setCurrentTime(-2^71)] does not return, whatever the fuel. *)
Lemma time_loop_absorbed :
  metrics gregorianWired !! "day" = Some 86400
  /\ dadd (Int farPast) (Int 86400) = Int farPast
  /\ forall fuel,
       Double.setCurrentTime fuel (Int farPast) gregorianWired = OutOfFuel.
Proof.
  split_and!.
  - reflexivity.
  - vm_compute. reflexivity.
  - intros fuel. unfold Double.setCurrentTime, bind, this.
    change (metricsDay gregorianWired) with (Int 86400).
    by rewrite addDays64_absorbed.
Qed.

Lemma rollBackward64_terminates fuel : forall z thisYear total c,
  Double.yearLengths positiveSafe c ->
  - maxSafeInteger <= z ->
  (Z.to_nat (- z) <= fuel)%nat ->
  Double.rollBackward fuel (Int z) thisYear total c <> OutOfFuel.
Proof.
  induction fuel as [|fuel IH]; intros z thisYear total c Hpos Hlow Hfuel;
    simpl; destruct (z <? 0) eqn:Hneg; try done.
  - apply Z.ltb_lt in Hneg. lia.
  - apply Z.ltb_lt in Hneg. unfold bind.
    destruct (getLengthOfYear64_yearLengths positiveSafe
                (yearBefore thisYear) c Hpos)
      as (t & c1 & -> & Ht & Hpos1 & _).
    unfold positiveSafe in Ht. simpl.
    rewrite binary64_safe by (unfold safeInteger; lia).
    apply IH; [done|lia|lia].
Qed.

Lemma rollForward64_terminates fuel : forall z thisYear t c,
  Double.yearLengths positiveSafe c ->
  0 < t ->
  z <= maxSafeInteger ->
  (Z.to_nat z <= fuel)%nat ->
  Double.rollForward fuel (Int z) thisYear (Int t) c <> OutOfFuel.
Proof.
  induction fuel as [|fuel IH]; intros z thisYear t c Hpos Ht Hhigh Hfuel;
    simpl; destruct (t <=? z) eqn:Hge; try done.
  - apply Z.leb_le in Hge. lia.
  - apply Z.leb_le in Hge. unfold bind.
    destruct (getLengthOfYear64_yearLengths positiveSafe
                (yearAfter thisYear) c Hpos)
      as (t1 & c1 & -> & Ht1 & Hpos1 & _).
    unfold positiveSafe in Ht1. simpl.
    rewrite binary64_safe by (unfold safeInteger; lia).
    apply IH; [done|lia|lia|lia].
Qed.

(** With positive safe year lengths, a safe argument and [|n|] units of
    fuel the day setter over doubles returns. *)
Lemma setCurrentDay64_returns fuel n c :
  Double.yearLengths positiveSafe c ->
  safeInteger n ->
  (Z.to_nat (Z.abs n) <= fuel)%nat ->
  exists c', Double.setCurrentDay fuel (ANumber (Int n)) c = Ret tt c'.
Proof.
  intros Hpos Hn Hfuel. unfold safeInteger in Hn. simpl. unfold bind, this.
  destruct (getLengthOfYear64_yearLengths positiveSafe (startYear c) c Hpos)
    as (t & c0 & -> & Ht & Hpos0 & Hsame0).
  pose proof (rollBackward64_safe fuel (Int n) (startYear c) (Int t) c0
                Hpos0) as Hback.
  pose proof (rollBackward64_terminates fuel n (startYear c) (Int t) c0
                Hpos0) as Hterm.
  destruct (Double.rollBackward fuel (Int n) (startYear c) (Int t) c0)
    as [[[n1 y1] t1] c1|err c1|];
    [|done|exfalso; apply Hterm; [lia|lia|done]].
  destruct Hback as (Hpos1 & Hsame1 & Hnn & Hcase).
  destruct (jge n1 t1) eqn:Hge; [|unfold ret, modify; eauto].
  destruct Hcase as [(-> & -> & -> & ->)|Hlt].
  - destruct Hsame0 as (_ & _ & Hposition & _).
    assert (startYear c0 = startYear c) as Hy
      by (unfold position in Hposition; congruence).
    destruct (decide (startYear c0 <> startYear c)); [done|].
    pose proof (rollForward64_safe fuel (Int n) (startYear c) (Int t) c0
                  Hpos0) as Hfwd.
    pose proof (rollForward64_terminates fuel n (startYear c) t c0 Hpos0)
      as Hterm'.
    unfold positiveSafe in Ht.
    destruct (Double.rollForward fuel (Int n) (startYear c) (Int t) c0)
      as [[[n2 y2] t2] c2|err c2|];
      [unfold modify; eauto|done|exfalso; apply Hterm'; [lia|lia|lia|done]].
  - apply jlt_not_jge in Hlt. congruence.
Qed.

(** C10, as amended: when every year has a positive length that is a
    safe integer and [metrics["day"]] is a positive safe integer,
    [setCurrentDay(n)] and [setCurrentTime(n)] terminate for every safe
    integer [n]: with [|n|] units of fuel or more, both return.  Within
    the safe integers each backward step raises [n] by a positive year
    length, each forward step lowers it by one, and each step of the
    time loop raises it by the day length. *)
Theorem setters_terminate n day c fuel :
  Double.yearLengths positiveSafe c ->
  metrics c !! "day" = Some day ->
  0 < day <= maxSafeInteger ->
  safeInteger n ->
  (Z.to_nat (Z.abs n) <= fuel)%nat ->
  returned (Double.setCurrentDay fuel (ANumber (Int n)) c) = true
  /\ returned (Double.setCurrentTime fuel (Int n) c) = true.
Proof.
  intros Hpos Hm Hday Hn Hfuel. split.
  - by destruct (setCurrentDay64_returns fuel n c Hpos Hn Hfuel) as (c' & ->).
  - unfold safeInteger in Hn.
    rewrite (setCurrentTime64_returns n day c fuel Hm Hday); [done|lia|lia].
Qed.

Lemma setters_terminate_witness :
  returned (Double.setCurrentDay 1000 (ANumber (Int (-1000))) quartersWired)
  = true
  /\ returned (Double.setCurrentTime 1000 (Int (-1000)) quartersWired) = true.
Proof.
  apply (setters_terminate (-1000) 86400 quartersWired 1000).
  - apply quartersWired_yearLengths.
  - reflexivity.
  - split; vm_compute; [reflexivity|discriminate].
  - split; vm_compute; discriminate.
  - vm_compute. lia.
Defined.

Lemma gregorianWired_yearLengths :
  Double.yearLengths gregorianLength gregorianWired.
Proof.
  split.
  - intros y exts H. simpl in H. by rewrite lookup_empty in H.
  - intros y. unfold gregorianWired, wireFields. cbn [populateExtents].
    unfold defaultPopulateExtents.
    destruct ((Z.rem y 4 =? 0)
              && (negb (Z.rem y 100 =? 0) || (Z.rem y 400 =? 0)));
      eexists _, _, _; split_and!; try reflexivity.
    + by right.
    + by left.
Qed.

Lemma rollForward64_absorbed fuel : forall thisYear L c,
  Double.yearLengths gregorianLength c ->
  gregorianLength L ->
  Double.rollForward fuel (Int farFuture) thisYear (Int L) c = OutOfFuel.
Proof.
  assert (forall L, gregorianLength L ->
            jge (Int farFuture) (Int L) = true
            /\ dsub (Int farFuture) (Int L) = Int farFuture) as Hfix.
  { intros L [-> | ->]; split; vm_compute; reflexivity. }
  induction fuel as [|fuel IH]; intros thisYear L c Hlen HL;
    destruct (Hfix L HL) as [Hge _].
  - change (Double.rollForward 0 (Int farFuture) thisYear (Int L) c)
      with ((if jge (Int farFuture) (Int L) then outOfFuel
             else ret (Int farFuture, thisYear, Int L)) c).
    by rewrite Hge.
  - change (Double.rollForward (S fuel) (Int farFuture) thisYear (Int L) c)
      with ((if jge (Int farFuture) (Int L)
             then bind (Double.getLengthOfYear (yearAfter thisYear))
                    (fun totalDays =>
                       Double.rollForward fuel (dsub (Int farFuture) totalDays)
                         (yearAfter thisYear) totalDays)
             else ret (Int farFuture, thisYear, Int L)) c).
    rewrite Hge. unfold bind.
    destruct (getLengthOfYear64_yearLengths gregorianLength
                (yearAfter thisYear) c Hlen)
      as (L1 & c1 & -> & HL1 & Hlen1 & _).
    destruct (Hfix L1 HL1) as [_ ->]. by apply IH.
Qed.

(** C10, as stated, fails.  Every Gregorian year has a positive length
    and the default day has 86400 seconds, but [2^63 - 365] and
    [2^63 - 366] are rounded back to [2^63]: the forward loop
    [n -= totalDays] makes no progress, and [setCurrentDay(2^63)] on the
    default calendar does not return, whatever the fuel. *)
Lemma forward_roll_absorbed :
  (forall y, exists ext exts L,
      defaultPopulateExtents y = GArray ext
      /\ Double.layout y (Int 0) ext = Some exts
      /\ Double.lengthOfExtents exts = Some (Int L) /\ 0 < L)
  /\ metrics gregorianWired !! "day" = Some 86400
  /\ dsub (Int farFuture) (Int 365) = Int farFuture
  /\ forall fuel,
       Double.setCurrentDay fuel (ANumber (Int farFuture)) gregorianWired
       = OutOfFuel.
Proof.
  split_and!.
  - intros y.
    destruct (proj2 gregorianWired_yearLengths y)
      as (ext & exts & L & Hg & Hl & Hlen & HL).
    exists ext, exts, L. split_and!; [done..|]. destruct HL; lia.
  - reflexivity.
  - vm_compute. reflexivity.
  - intros fuel. unfold Double.setCurrentDay, bind, this.
    destruct (getLengthOfYear64_yearLengths gregorianLength
                (startYear gregorianWired) gregorianWired
                gregorianWired_yearLengths)
      as (L & c1 & -> & HL & Hlen1 & (_ & _ & Hpos & _)).
    assert (Double.rollBackward fuel (Int farFuture)
              (startYear gregorianWired) (Int L) c1
            = Ret (Int farFuture, startYear gregorianWired, Int L) c1) as ->.
    { destruct fuel; reflexivity. }
    assert (jge (Int farFuture) (Int L) = true) as ->
      by (destruct HL as [-> | ->]; vm_compute; reflexivity).
    unfold position in Hpos.
    assert (startYear c1 = startYear gregorianWired) as Hy by congruence.
    destruct (decide (startYear c1 <> startYear gregorianWired)); [done|].
    by rewrite rollForward64_absorbed.
Qed.

(** ** What [setCurrentDay] does establish

    The upper bound and the agreement of [totalDays] with the cached
    length of the year hold after every call that returns; the lower
    bound holds unless the call rolled forward. *)

Lemma getLengthOfYear_cachedLength year c L c' :
  getLengthOfYear year c = Ret L c' -> cachedLength c' year L.
Proof.
  unfold getLengthOfYear. intros H.
  apply bind_Ret in H as (c0 & c1 & _ & H).
  apply bind_Ret in H as ([] & c2 & _ & H).
  apply bind_Ret in H as (c3 & c4 & [= <- <-] & H).
  destruct (extentsByStart c2 !! year) as [exts|] eqn:Hc; [|done].
  destruct (last exts) as [l|] eqn:Hlast; [|done].
  injection H as <- <-. exists exts. split; [done|].
  unfold lengthOfExtents. by rewrite Hlast.
Qed.

Lemma rollBackward_cachedLength fuel :
  forall n thisYear total c n' year' total' c',
  rollBackward fuel n thisYear total c = Ret (n', year', total') c' ->
  cachedLength c thisYear total -> cachedLength c' year' total'.
Proof.
  induction fuel as [|fuel IH]; intros n thisYear total c n' year' total' c';
    simpl; destruct (jlt n (Int 0)); try done;
    try (by intros [= <- <- <- <-]).
  intros H _. apply bind_Ret in H as (L & c1 & HL & H).
  apply (IH _ _ _ _ _ _ _ _ H). by eapply getLengthOfYear_cachedLength.
Qed.

Lemma rollForward_cachedLength fuel :
  forall n thisYear total c n' year' total' c',
  rollForward fuel n thisYear total c = Ret (n', year', total') c' ->
  cachedLength c thisYear total ->
  cachedLength c' year' total'
  /\ ((n' = n /\ year' = thisYear) \/ thisYear < year').
Proof.
  induction fuel as [|fuel IH]; intros n thisYear total c n' year' total' c';
    simpl; destruct (jge n total); try done;
    try (intros [= <- <- <- <-]; by eauto).
  intros H _. apply bind_Ret in H as (L & c1 & HL & H).
  apply IH in H as [Hlen Hcase]; [|by eapply getLengthOfYear_cachedLength].
  split; [done|]. right. destruct Hcase as [[_ ->]|]; lia.
Qed.

Lemma setCurrentDay_establishes fuel n c c' :
  positiveYears c ->
  setCurrentDay fuel (ANumber n) c = Ret tt c' ->
  cachedLength c' (startYear c') (totalDays c')
  /\ jge (currentDay c') (totalDays c') = false
  /\ (startYear c' <= startYear c -> jlt (currentDay c') (Int 0) = false).
Proof.
  intros Hpos H. simpl in H.
  apply bind_Ret in H as (c0 & c1 & [= <- <-] & H).
  apply bind_Ret in H as (L & c1 & HL & H).
  destruct (getLengthOfYear_positive (startYear c) c Hpos)
    as (z & c1' & HL' & Hz & Hpos1 & Hsame1).
  rewrite HL in HL'. injection HL' as -> <-.
  apply getLengthOfYear_cachedLength in HL.
  apply bind_Ret in H as ([[n1 y1] t1] & c2 & Hback & H).
  pose proof (rollBackward_positive fuel n (startYear c) (Int z) c1 Hpos1)
    as Hb.
  rewrite Hback in Hb. destruct Hb as (Hpos2 & Hsame2 & Hnn & Hcase).
  apply rollBackward_cachedLength in Hback; [|done].
  apply bind_Ret in H as ([[n2 y2] t2] & c3 & Hfwd & H).
  unfold modify in H. injection H as <-. simpl.
  destruct (jge n1 t1) eqn:Hge.
  - apply bind_Ret in Hfwd as (c4 & c5 & [= <- <-] & Hfwd).
    destruct (decide (startYear c2 <> y1)); [done|].
    pose proof (rollForward_positive fuel n1 y1 t1 c2 Hpos2) as Hf.
    rewrite Hfwd in Hf. destruct Hf as (_ & _ & Hlt).
    apply rollForward_cachedLength in Hfwd as [Hlen Hyear]; [|done].
    split_and!; [done..|]. intros Hle.
    destruct Hcase as [(-> & -> & -> & ->)|[Hy Hlt']].
    + destruct Hyear as [[-> _]|Hyear]; [done|lia].
    + apply jlt_not_jge in Hlt'. congruence.
  - unfold ret in Hfwd. injection Hfwd as <- <- <- <-. done.
Qed.

(** ** The Gregorian default and the rollover into a longer year *)

Lemma default_positiveExtents : positiveExtents defaultPopulateExtents.
Proof.
  intros y. eexists. split; [reflexivity|]. split; [done|].
  repeat constructor; eexists _, _; (split; [reflexivity|]);
    try lia.
  destruct (_ && _); lia.
Qed.

(** C1 at a failing input: the default (Gregorian) calendar starts in
    2022; [setCurrentDay(730)] rolls forward over 2022 and 2023 into the
    leap year 2024 and subtracts the 366 days of 2024 where the 365 days
    of 2023 were due, leaving the current day at -1. *)
Theorem forward_roll_leaves_negative_day :
  let o0 := newCalendar 1 None in
  let o1 := afterwards o0 (run 2 (OpSetCurrentDay (ANumber (Int 730)))) in
  positiveExtents defaultPopulateExtents
  /\ positionAfter o0 = Some (2022, Int 0, Int 365, Int 0)
  /\ returned o1 = true
  /\ positionAfter o1 = Some (2024, Int (-1), Int 366, Int 0).
Proof.
  split; [apply default_positiveExtents|]. vm_compute. split_and!; done.
Qed.

(** C2 at a failing input: on the last day of 2023, [adjustDay(1)]
    followed by [adjustDay(-1)] ends one day earlier than it began. *)
Theorem adjustDay_round_trip_lost :
  let o0 := newCalendar 1 (Some lastDayOf2023) in
  let o1 := afterwards o0 (run 2 (OpAdjustDay (Int 1))) in
  let o2 := afterwards o1 (run 2 (OpAdjustDay (Int (-1)))) in
  positiveExtents defaultPopulateExtents
  /\ positionAfter o0 = Some (2023, Int 364, Int 365, Int 0)
  /\ returned o1 = true
  /\ positionAfter o1 = Some (2024, Int (-1), Int 366, Int 0)
  /\ returned o2 = true
  /\ positionAfter o2 = Some (2023, Int 363, Int 365, Int 0).
Proof.
  split; [apply default_positiveExtents|]. vm_compute. split_and!; done.
Qed.

(** Every supplied start year other than 0 is the one the constructor
    assigns. *)
Lemma initialStartYear_nonzero props z :
  CalendarOptions.startYear props = Some z -> z <> 0 ->
  initialStartYear props = z.
Proof.
  unfold initialStartYear. intros -> Hz.
  by destruct (Z.eqb_spec z 0).
Qed.

(** C8 at a failing input: a supplied start year of 0 is replaced by
    2022, both for explicit options and for the default options (whose
    start year is 0), although the initial day needs no rollover. *)
Theorem start_year_zero_replaced :
  CalendarOptions.startYear yearZero = Some 0
  /\ initialStartYear yearZero = 2022
  /\ positionAfter (newCalendar 1 (Some yearZero))
     = Some (2022, Int 0, Int 365, Int 0)
  /\ CalendarOptions.startYear DefaultCalendarOptions = Some 0
  /\ positionAfter (newCalendar 1 None) = Some (2022, Int 0, Int 365, Int 0).
Proof. vm_compute. split_and!; done. Qed.

(** ** Binary search *)

Lemma switch_inv comparison :
  match switch comparison with
  | CaseMinusOne => comparison = -1
  | CaseZero => comparison = 0
  | CaseOne => comparison = 1
  | CaseDefault => True
  end.
Proof.
  unfold switch.
  destruct (comparison =? -1) eqn:H1; [by apply Z.eqb_eq in H1|].
  destruct (comparison =? 0) eqn:H2; [by apply Z.eqb_eq in H2|].
  destruct (comparison =? 1) eqn:H3; [by apply Z.eqb_eq in H3|done].
Qed.

Section BsearchLoop.
Context {A : Type}.
Variable compareFn : A -> A -> Z.
Variable ary : list A.
Variable value : A.

(** Between the bounds the loop starts with, [ary[mid]] is always an
    element of the array. *)
Lemma bsearchLoop_in_range low high mid :
  0 <= low -> high < Z.of_nat (length ary) ->
  bsearchLoop compareFn ary value low high mid <> UndefinedElement.
Proof.
  funelim (bsearchLoop compareFn ary value low high mid);
    intros Hlow Hhigh; try done.
  - apply lookup_ge_None in Heq. exfalso.
    assert (0 <= (low + high) / 2 <= high)
      by (Z.div_mod_to_equations; lia).
    lia.
  - apply H; [done|]. Z.div_mod_to_equations; lia.
  - apply H; [|done]. Z.div_mod_to_equations; lia.
Qed.

(** On an array in ascending order, a value that occurs between the
    bounds is found: the loop returns an index that holds a match. *)
Lemma bsearchLoop_finds low high mid :
  ascendingFor compareFn value ary ->
  0 <= low -> high < Z.of_nat (length ary) ->
  (exists k x, low <= k <= high /\ ary !! Z.to_nat k = Some x
               /\ compareFn value x = 0) ->
  exists r x, bsearchLoop compareFn ary value low high mid = Returned r
              /\ low <= r <= high
              /\ ary !! Z.to_nat r = Some x /\ compareFn value x = 0.
Proof.
  intros [Hrange Hasc].
  funelim (bsearchLoop compareFn ary value low high mid);
    intros Hlow Hhigh (k & xk & Hk & Hxk & Hzero).
  - lia.
  - apply lookup_ge_None in Heq. exfalso.
    assert (0 <= (low + high) / 2 <= high)
      by (Z.div_mod_to_equations; lia).
    lia.
  - pose proof (switch_inv (compareFn value x)) as Hsw. rewrite Heq in Hsw.
    destruct (H Hrange Hasc Hlow) as (r & xr & -> & Hr & Hxr & Hz).
    + Z.div_mod_to_equations; lia.
    + exists k, xk. split_and!; try done; try lia.
      destruct (decide (k < (low + high) / 2)) as [|Hge]; [lia|].
      exfalso.
      destruct (decide (k = (low + high) / 2)) as [->|Hne];
        [congruence|].
      assert (0 <= (low + high) / 2) by (Z.div_mod_to_equations; lia).
      destruct (Hasc (Z.to_nat ((low + high) / 2)) (Z.to_nat k) x xk)
        as [Hm _]; [lia|done..|].
      rewrite Hm in Hzero by done. done.
    + exists r, xr. split_and!; try done; try lia.
      Z.div_mod_to_equations; lia.
  - pose proof (switch_inv (compareFn value x)) as Hsw. rewrite Heq in Hsw.
    exists ((low + high) / 2), x. split_and!; try done;
      Z.div_mod_to_equations; lia.
  - pose proof (switch_inv (compareFn value x)) as Hsw. rewrite Heq in Hsw.
    destruct (H Hrange Hasc) as (r & xr & -> & Hr & Hxr & Hz).
    + Z.div_mod_to_equations; lia.
    + done.
    + exists k, xk. split_and!; try done; try lia.
      destruct (decide ((low + high) / 2 < k)) as [|Hge]; [lia|].
      exfalso.
      destruct (decide (k = (low + high) / 2)) as [->|Hne];
        [congruence|].
      destruct (Hasc (Z.to_nat k) (Z.to_nat ((low + high) / 2)) xk x)
        as [_ Hm]; [lia|done..|].
      rewrite Hm in Hzero by done. done.
    + exists r, xr. split_and!; try done; try lia.
      Z.div_mod_to_equations; lia.
  - exfalso. apply (Hrange x); [|done].
    apply list_elem_of_lookup. eauto.
Qed.
End BsearchLoop.

(** The exact-match half of the contract holds: on a non-empty array in
    ascending order, a value that occurs in it is found. *)
Lemma bsearch_finds {A} `{Comparable A} (ary : list A) (value : A)
    (compareFn : A -> A -> Z) :
  ascendingFor compareFn value ary ->
  (exists (k : nat) (x : A), ary !! k = Some x /\ compareFn value x = 0) ->
  exists r x, bsearch (IsArray ary) value (Some compareFn) = Returned r
              /\ ary !! Z.to_nat r = Some x /\ compareFn value x = 0.
Proof.
  intros Hasc (k & x & Hk & Hzero). unfold bsearch.
  pose proof (lookup_lt_Some _ _ _ Hk) as Hlen.
  destruct (Z.of_nat (length ary) - 1 <? 0) eqn:Hempty;
    [apply Z.ltb_lt in Hempty; lia|].
  destruct (bsearchLoop_finds compareFn ary value 0
              (Z.of_nat (length ary) - 1) 0 Hasc)
    as (r & xr & Hr & _ & Hxr & Hz); [lia|lia| |by eauto].
  exists (Z.of_nat k), x. rewrite Nat2Z.id. split_and!; try done; lia.
Qed.

(** [bsearch] never reads outside the array. *)
Lemma bsearch_in_range {A} `{Comparable A} (ary : ArrayArg A) (value : A)
    (compare : option (A -> A -> Z)) :
  bsearch ary value compare <> UndefinedElement.
Proof.
  unfold bsearch. destruct ary as [ary|]; [|done].
  destruct (Z.of_nat (length ary) - 1 <? 0); [done|].
  apply bsearchLoop_in_range; lia.
Qed.

(** C5 at a failing input: 45 is absent from the test array and would
    have to be inserted at index 4, but the search returns -3, the
    negation of the last midpoint; and 5, absent as well, yields 0. *)
Theorem bsearch_returns_negated_midpoint :
  bsearch (IsArray arrayOfInt) 45 None = Returned (-3)
  /\ insertionIndex compareNumbers 45 arrayOfInt = 4
  /\ bsearch (IsArray arrayOfInt) 5 None = Returned 0
  /\ 5 ∉ arrayOfInt.
Proof.
  split_and!; [reflexivity..|].
  unfold arrayOfInt. rewrite !not_elem_of_cons. split_and!; try done.
  apply not_elem_of_nil.
Qed.

(** * Further properties of the code *)

(** ** Invariants of a calendar in use *)

(** A state predicate that holds of the freshly wired object and is kept
    by a resolution and by the two commits holds of every calendar. *)
Lemma reachable_invariant (I : Calendar -> Prop) :
  (forall props gen, I (wireFields props gen)) ->
  (forall year c c',
      I c -> finalState (buildExtents year c) = Some c' -> I c') ->
  (forall c n year total, I c -> I (set_position n year total c)) ->
  (forall c t, I c -> I (set_currentTime t c)) ->
  forall c, reachable c -> I c.
Proof.
  intros Hinit Hbuild Hpos Htime.
  set (R := fun c c' : Calendar => I c -> I c').
  assert (forall c, R c c) as Hrefl by (unfold R; auto).
  assert (forall c1 c2 c3, R c1 c2 -> R c2 c3 -> R c1 c3) as Htrans
    by (unfold R; auto).
  assert (forall year c c',
             finalState (buildExtents year c) = Some c' -> R c c') as HRb
    by (unfold R; eauto).
  assert (forall c n year total, R c (set_position n year total c)) as HRp
    by (unfold R; auto).
  assert (forall c t, R c (set_currentTime t c)) as HRt
    by (unfold R; auto).
  induction 1 as [fuel arg c Hnew|fuel op c c' _ IH Hrun].
  - apply (newCalendar_frame R Hrefl Htrans HRb HRp HRt) in Hnew
      as (props & gen & _ & HR). apply HR, Hinit.
  - apply (run_frame R Hrefl Htrans HRb HRp HRt) in Hrun. by apply Hrun.
Qed.

Lemma cacheFromGenerator_buildExtents year c c' :
  cacheFromGenerator c ->
  finalState (buildExtents year c) = Some c' -> cacheFromGenerator c'.
Proof.
  intros Hmemo Hb.
  destruct (resolvedOnly_buildExtents year c c' Hb)
    as [(Hgen & _) Hgrows].
  intros y exts Hy. rewrite Hgen.
  destruct (Hgrows y) as [Heq|(_ & ext & rvs & Hg & Hl & Hs)].
  - apply Hmemo. congruence.
  - exists ext. split; [done|congruence].
Qed.

Lemma reachable_cacheFromGenerator c : reachable c -> cacheFromGenerator c.
Proof.
  apply (reachable_invariant cacheFromGenerator).
  - intros props gen y exts H. simpl in H. by rewrite lookup_empty in H.
  - apply cacheFromGenerator_buildExtents.
  - done.
  - done.
Qed.




(** An invariant of the position: it is enough that a returning
    [setCurrentDay] establishes it, that resolutions which leave the
    position alone keep it, and that the commit of the time keeps it. *)
Lemma reachable_position_invariant (I : Calendar -> Prop) :
  (forall fuel a c c',
      cacheFromGenerator c -> setCurrentDay fuel a c = Ret tt c' -> I c') ->
  (forall c c', I c -> resolvedOnly c c' -> I c') ->
  (forall c t, I c -> I (set_currentTime t c)) ->
  forall c, reachable c -> I c.
Proof.
  intros Hset Hmono Htime.
  assert (forall fuel n c c',
             I c -> setCurrentTime fuel n c = Ret tt c' -> I c') as Htime'.
  { intros fuel n c c' Hc H.
    pose proof (setCurrentTime_frame fuel n c) as HT. rewrite H in HT.
    destruct HT as (t & ->). auto. }
  assert (forall fuel op c e c',
             I c -> run fuel op c = Throw e c' -> I c') as Hthrow.
  { intros fuel op c e c' Hc H. apply (Hmono c c' Hc).
    exact (run_Throw_frame resolvedOnly resolvedOnly_refl
             resolvedOnly_trans resolvedOnly_buildExtents fuel op c e c' H). }
  induction 1 as [fuel arg c Hnew|fuel op c c' Hreach IH Hrun].
  - unfold newCalendar in Hnew.
    set (props := default DefaultCalendarOptions arg) in *.
    destruct (CalendarOptions.populateExtents props) as [gen|]; [|done].
    destruct (CalendarOptions.startYear props); [|done].
    apply bind_Ret in Hnew as ([] & c1 & H1 & Hnew).
    apply bind_Ret in Hnew as ([] & c2 & H2 & Hnew).
    apply bind_Ret in Hnew as (c3 & c4 & [= <- <-] & Hnew).
    assert (c = c2) as ->.
    { destruct (extentsByStart c2 !! startYear c2) as [exts|]; [|done].
      destruct (last exts); [|done]. by injection Hnew. }
    assert (cacheFromGenerator (wireFields props gen)) as Hmemo.
    { intros y exts H. simpl in H. by rewrite lookup_empty in H. }
    exact (Htime' _ _ _ _ (Hset _ _ _ _ Hmemo H1) H2).
  - pose proof (reachable_cacheFromGenerator c Hreach) as Hmemo.
    destruct (run fuel op c) as [[] c1|e c1|] eqn:Hop; simpl in Hrun;
      [|injection Hrun as <-; eauto|done].
    injection Hrun as <-. destruct op as [a|n|n|n]; simpl in Hop.
    + eauto.
    + eauto.
    + unfold adjustDay in Hop.
      apply bind_Ret in Hop as (c3 & c4 & [= <- <-] & Hop). eauto.
    + unfold adjustTime in Hop.
      apply bind_Ret in Hop as (c3 & c4 & [= <- <-] & Hop).
      apply bind_Ret in Hop as ([] & c5 & H1 & H2). eauto.
Qed.





Lemma jadd_notInfinite a field :
  notInfinite a -> notInfinite (jadd a (toNumber field)).
Proof.
  intros Ha s H.
  destruct a as [x|t|], field as [z|]; simpl in H; try done;
    by destruct (Ha t).
Qed.

Lemma layout_notInfinite ext : forall year start yearExtents,
  layout year start ext = Some yearExtents ->
  notInfinite start ->
  Forall (fun rv => notInfinite (IExt.startDay rv)) yearExtents.
Proof.
  induction ext as [|v rest IH]; intros year start exts; simpl.
  - intros [= <-] _. constructor.
  - destruct v as [|p|e]; try done.
    destruct (layout year _ rest) as [rvs|] eqn:Hl; [|done].
    intros [= <-] Hs. constructor; [done|].
    eapply IH; [exact Hl|]. by apply jadd_notInfinite.
Qed.

Lemma cachedLength_notInfinite c year total :
  cacheFromGenerator c -> cachedLength c year total -> notInfinite total.
Proof.
  intros Hmemo (exts & Hc & Hlen).
  destruct (Hmemo year exts Hc) as (ext & _ & Hl).
  apply layout_notInfinite in Hl; [|done].
  unfold lengthOfExtents in Hlen.
  destruct (last exts) as [l|] eqn:Hlast; [|done].
  injection Hlen as <-. apply jadd_notInfinite.
  apply last_Some_elem_of in Hlast.
  by apply (proj1 (Forall_forall _ _) Hl l).
Qed.

Lemma cacheFromGenerator_getLengthOfYear year c c' :
  cacheFromGenerator c ->
  finalState (getLengthOfYear year c) = Some c' -> cacheFromGenerator c'.
Proof.
  intros Hmemo H.
  apply (getLengthOfYear_frame
           (fun c c' => cacheFromGenerator c -> cacheFromGenerator c'))
    in H; auto.
  intros y c0 c1 Hb Hm. by apply (cacheFromGenerator_buildExtents y c0).
Qed.

Lemma jge_after_adding n total :
  jlt n (Int 0) = true -> notInfinite total ->
  jge (jadd n total) total = false.
Proof.
  intros Hn Ht. destruct total as [t|s|]; [| by destruct (Ht s) |].
  - destruct n as [x|[]|]; simpl in *; try done.
    apply Z.ltb_lt in Hn. apply Z.leb_gt. lia.
  - by destruct n.
Qed.

(** After the backward loop has run at all, the day is below the length
    of the year reached, whatever the lengths are. *)
Lemma rollBackward_below fuel : forall n thisYear total c n' year' total' c',
  cacheFromGenerator c ->
  rollBackward fuel n thisYear total c = Ret (n', year', total') c' ->
  cacheFromGenerator c'
  /\ ((n' = n /\ year' = thisYear /\ total' = total /\ c' = c)
      \/ jge n' total' = false).
Proof.
  induction fuel as [|fuel IH];
    intros n thisYear total c n' year' total' c' Hmemo; simpl;
    destruct (jlt n (Int 0)) eqn:Hneg; try done;
    try (intros [= <- <- <- <-]; split; [done|by left]).
  intros H. apply bind_Ret in H as (L & c1 & HL & H).
  assert (cacheFromGenerator c1) as Hmemo1
    by (apply (cacheFromGenerator_getLengthOfYear (thisYear - 1) c);
        [done|by rewrite HL]).
  apply getLengthOfYear_cachedLength in HL.
  pose proof (cachedLength_notInfinite c1 _ _ Hmemo1 HL) as HLfin.
  apply IH in H as [Hmemo' Hcase]; [|done]. split; [done|]. right.
  destruct Hcase as [(-> & -> & -> & ->)|]; [|done].
  by apply jge_after_adding.
Qed.

Lemma rollForward_exit fuel : forall n thisYear total c n' year' total' c',
  rollForward fuel n thisYear total c = Ret (n', year', total') c' ->
  jge n' total' = false.
Proof.
  induction fuel as [|fuel IH]; intros n thisYear total c n' year' total' c';
    simpl; destruct (jge n total) eqn:Hge; try done;
    try (by intros [= <- <- <- <-]).
  intros H. apply bind_Ret in H as (L & c1 & _ & H). eauto.
Qed.

Lemma setCurrentDay_below_total fuel a c c' :
  cacheFromGenerator c ->
  setCurrentDay fuel a c = Ret tt c' ->
  jge (currentDay c') (totalDays c') = false.
Proof.
  intros Hmemo. destruct a as [n|]; [|done]. simpl. intros H.
  apply bind_Ret in H as (c0 & c1 & [= <- <-] & H).
  apply bind_Ret in H as (L & c1 & HL & H).
  assert (cacheFromGenerator c1) as Hmemo1
    by (apply (cacheFromGenerator_getLengthOfYear (startYear c) c);
        [done|by rewrite HL]).
  apply bind_Ret in H as ([[n1 y1] t1] & c2 & Hback & H).
  apply rollBackward_below in Hback as [_ Hcase]; [|done].
  apply bind_Ret in H as ([[n2 y2] t2] & c3 & Hfwd & H).
  unfold modify in H. injection H as <-. simpl.
  destruct (jge n1 t1) eqn:Hge.
  - apply bind_Ret in Hfwd as (c4 & c5 & [= <- <-] & Hfwd).
    destruct (decide (startYear c2 <> y1)); [done|].
    by apply rollForward_exit in Hfwd.
  - unfold ret in Hfwd. by injection Hfwd as <- <- <- <-.
Qed.

(** X3: in every state of a calendar in use the test
    [currentDay >= totalDays] is false: the current day is below the
    length of the current year (or one of the two is [NaN]), for every
    generator and every sequence of operations. *)
Theorem currentDay_below_totalDays c :
  reachable c -> jge (currentDay c) (totalDays c) = false.
Proof.
  apply (reachable_position_invariant
           (fun c => jge (currentDay c) (totalDays c) = false)).
  - apply setCurrentDay_below_total.
  - intros c0 c' H [(_ & _ & Hpos & _) _]. unfold position in Hpos.
    replace (currentDay c') with (currentDay c0) by congruence.
    by replace (totalDays c') with (totalDays c0) by congruence.
  - done.
Qed.

Lemma currentDay_below_totalDays_witness :
  jge (currentDay quartersCalendar) (totalDays quartersCalendar) = false.
Proof.
  apply (currentDay_below_totalDays quartersCalendar).
  apply (reachable_new 1 (Some (quartersOptions everyYearQuarters))).
  vm_compute. reflexivity.
Defined.






(** ** The two cache views *)

Lemma lastNamed_cons name rv rvs :
  lastNamed name (rv :: rvs)
  = match lastNamed name rvs with
    | Some r => Some r
    | None =>
        if decide (nameKey (IExt.originalExt rv) = name) then Some rv
        else None
    end.
Proof.
  unfold lastNamed. rewrite filter_cons.
  destruct (decide (nameKey (IExt.originalExt rv) = name)).
  - rewrite last_cons. by destruct (last (filter _ rvs)).
  - by destruct (last (filter _ rvs)).
Qed.

(** What the callback leaves under a name and the year it resolves: the
    last resolved extent of that name, and the previous entry when no
    resolved extent has that name. *)
Lemma mapExtents_lastNamed ext : forall year len index start c rvs c' name,
  mapExtents year len index start ext c = Ret rvs c' ->
  namedExtent c' name year
  = match lastNamed name rvs with
    | Some rv => Some rv
    | None => namedExtent c name year
    end.
Proof.
  induction ext as [|v rest IH]; intros year len index start c rvs c' name;
    simpl.
  - by intros [= <- <-].
  - destruct v as [|p|e]; simpl; try done.
    unfold bind, modify.
    set (rv0 := IExt.mk year start e).
    set (c1 := set_extentsByName (indexByName year rv0) c).
    destruct (mapExtents _ _ _ _ rest c1) as [rvs1 c2|e2 c2|] eqn:Hrest;
      simpl; [|done..].
    intros [= <- <-].
    rewrite (IH year len (S index)
               (jadd start (toNumber (Extent.length e))) c1 rvs1 c2 name
               Hrest).
    rewrite lastNamed_cons.
    destruct (lastNamed name rvs1); [done|].
    unfold c1. rewrite namedExtent_indexByName.
    destruct (decide (nameKey (IExt.originalExt rv0) = name)) as [<-|Hne].
    + by rewrite decide_True.
    + rewrite decide_False; [done|]. by intros [-> _].
Qed.

(** A resolution that returns: the year enters the cache, and under
    each name the index holds the last extent of that name. *)
Lemma buildExtents_lastNamed year c c' :
  buildExtents year c = Ret tt c' ->
  exists rvs,
    extentsByStart c' = <[year := rvs]> (extentsByStart c)
    /\ forall name,
         namedExtent c' name year
         = match lastNamed name rvs with
           | Some rv => Some rv
           | None => namedExtent c name year
           end.
Proof.
  unfold buildExtents, bind, this, modify.
  destruct (decide (is_Some (extentsByStart c !! year))); [done|].
  destruct (populateExtents c year) as [ext|]; [|done].
  pose proof (mapExtents_lastNamed ext year (length ext) 0%nat (Int 0)
                (log_call year c)) as Hlast.
  pose proof (mapExtents_outcome ext year (length ext) 0%nat (Int 0)
                (log_call year c)) as Hmap.
  destruct (mapExtents _ _ _ _ ext (log_call year c)) as [rvs c1|e c1|];
    [|done..].
  intros [= <-]. exists rvs. destruct Hmap as [_ Hsame].
  apply sameButByName_caches in Hsame as (_ & Hstart & _).
  split.
  - simpl. by rewrite Hstart.
  - intros name. exact (Hlast rvs c1 name eq_refl).
Qed.

Lemma indexedByName_buildExtents year c c' :
  indexedByName c ->
  finalState (buildExtents year c) = Some c' -> indexedByName c'.
Proof.
  intros Hidx Hb.
  destruct (extentsByStart c !! year) as [exts0|] eqn:Hc.
  { rewrite buildExtents_cached in Hb by eauto. by injection Hb as <-. }
  pose proof (buildExtents_namedExtent year c c') as Hother.
  pose proof (buildExtents_outcome year c Hc) as Hout.
  pose proof (buildExtents_lastNamed year c) as Hlast.
  destruct (buildExtents year c) as [[] c1|e c1|]; simpl in Hb; [| |done];
    injection Hb as <-.
  - destruct (Hlast c1 eq_refl) as (rvs & Hstart & Hnames).
    intros y exts name rv. rewrite Hstart.
    destruct (decide (year = y)) as [<-|Hne].
    + rewrite lookup_insert_eq. intros [= <-] Hl.
      by rewrite Hnames, Hl.
    + rewrite lookup_insert_ne by done. intros Hy Hl.
      rewrite (Hother name y eq_refl) by done. by eapply Hidx.
  - destruct Hout as (_ & _ & Hstart & _).
    intros y exts name rv. rewrite Hstart. intros Hy Hl.
    rewrite (Hother name y eq_refl) by congruence. by eapply Hidx.
Qed.

(** X5: in every state of a calendar in use whose generator names no
    extent like a member of [Object.prototype], the extents of a cached
    year are indexed by name: under every name that occurs in the year,
    [extentsByName[name][year]] holds the last extent of that year with
    that name, also after operations have thrown. *)
Theorem cached_extents_are_indexed c :
  reachable c ->
  plainNames (populateExtents c) ->
  forall y yearExtents name rv,
    extentsByStart c !! y = Some yearExtents ->
    lastNamed name yearExtents = Some rv ->
    namedExtent c name y = Some rv.
Proof.
  intros Hreach _. revert c Hreach.
  apply (reachable_invariant indexedByName).
  - intros props gen y exts name rv H. simpl in H.
    by rewrite lookup_empty in H.
  - apply indexedByName_buildExtents.
  - done.
  - done.
Qed.

Lemma twoHalves_plainNames : plainNames twoHalves.
Proof. intros y ext [= <-]. reflexivity. Qed.

Lemma cached_extents_are_indexed_witness :
  namedExtent twoHalvesCalendar "Half" 2022
  = Some (IExt.mk 2022 (Int 182) (Extent.mk (Some "Half") (Some 183))).
Proof.
  apply (cached_extents_are_indexed twoHalvesCalendar
           ltac:(apply (reachable_new 1 (Some (quartersOptions twoHalves)));
                 vm_compute; reflexivity)
           twoHalves_plainNames 2022
           [ IExt.mk 2022 (Int 0) (Extent.mk (Some "Half") (Some 182));
             IExt.mk 2022 (Int 182) (Extent.mk (Some "Half") (Some 183)) ]).
  - vm_compute. reflexivity.
  - vm_compute. reflexivity.
Defined.

(** ** The layout of a year *)

Lemma lengthOfExtents_cons rv rvs :
  rvs <> [] -> lengthOfExtents (rv :: rvs) = lengthOfExtents rvs.
Proof.
  intros Hne. unfold lengthOfExtents. destruct rvs as [|rv' rvs]; [done|].
  done.
Qed.

Lemma layout_extentsOf pairs : forall year s,
  exists yearExtents,
    layout year (Int s) (extentsOf pairs) = Some yearExtents
    /\ length yearExtents = length pairs
    /\ (forall (i : nat) name len,
          pairs !! i = Some (name, len) ->
          yearExtents !! i
          = Some (IExt.mk year (Int (s + sumOf (take i pairs).*2))
                    (Extent.mk (Some name) (Some len))))
    /\ (pairs <> [] ->
        lengthOfExtents yearExtents = Some (Int (s + sumOf pairs.*2))).
Proof.
  induction pairs as [|[nm ln] rest IH]; intros year s; simpl.
  - exists []. split_and!; try done.
  - destruct (IH year (s + ln)) as (exts & -> & Hlen & Hlook & Htotal).
    eexists. split; [reflexivity|]. split_and!.
    + simpl. by rewrite Hlen.
    + intros [|i] name len; simpl.
      * intros [= <- <-]. do 2 f_equal. by rewrite Z.add_0_r.
      * intros Hi. rewrite (Hlook i name len Hi). do 3 f_equal.
        unfold sumOf. simpl. exact (eq_sym (Z.add_assoc _ _ _)).
    + intros _. destruct rest as [|p rest'].
      * destruct exts; [|done]. unfold lengthOfExtents, sumOf. simpl.
        do 2 f_equal. lia.
      * rewrite lengthOfExtents_cons by (by destruct exts).
        rewrite Htotal by done. do 2 f_equal. unfold sumOf. simpl.
        exact (eq_sym (Z.add_assoc _ _ _)).
Qed.





(** ** Construction *)

Lemma getLengthOfYear_rejected year c :
  extentsByStart c !! year = None ->
  ~ passesValidation (populateExtents c year) ->
  exists e c',
    getLengthOfYear year c = Throw e c' /\ isTypeError e = true.
Proof.
  intros Hn Hnv. pose proof (buildExtents_outcome year c Hn) as Hb.
  unfold getLengthOfYear, bind, this.
  destruct (decide (extentsByStart c !! year = None)); [|done].
  destruct (buildExtents year c) as [[] c1|err c1|]; [| |done].
  - destruct Hb as (ext & rvs & Hg & Hl & _). exfalso. apply Hnv.
    rewrite Hg. apply (layout_is_Some year ext (Int 0)). by eexists.
  - destruct Hb as (He & _). eauto.
Qed.

Lemma setCurrentDay_first_resolution fuel n c e c' :
  getLengthOfYear (startYear c) c = Throw e c' ->
  setCurrentDay fuel (ANumber n) c = Throw e c'.
Proof. intros H. simpl. unfold bind at 1 2. unfold this. by rewrite H. Qed.

(** X8: the constructor throws a [TypeError] when the options lack the
    generator or the start year, and when the list generated for the
    year the object starts in (2022 when the supplied year is 0) fails
    validation; this holds for every initial day and time. *)
Theorem constructor_rejects fuel props :
  (CalendarOptions.populateExtents props = None
   \/ CalendarOptions.startYear props = None
   \/ exists gen,
        CalendarOptions.populateExtents props = Some gen
        /\ ~ passesValidation (gen (initialStartYear props))) ->
  exists e, thrown (newCalendar fuel (Some props)) = Some e
            /\ isTypeError e = true.
Proof.
  unfold newCalendar. cbv zeta.
  change (default DefaultCalendarOptions (Some props)) with props.
  intros [Hp|[Hs|(gen & Hp & Hnv)]].
  - rewrite Hp. by exists TypeError_constructor.
  - rewrite Hs. destruct (CalendarOptions.populateExtents props);
      by exists TypeError_constructor.
  - rewrite Hp.
    destruct (CalendarOptions.startYear props) as [z|];
      [|by exists TypeError_constructor].
    destruct (getLengthOfYear_rejected (initialStartYear props)
                (wireFields props gen)) as (e & c' & Hlen & He);
      [apply lookup_empty|done|].
    exists e. split; [|done]. unfold bind at 1.
    by rewrite (setCurrentDay_first_resolution fuel _
                  (wireFields props gen) e c' Hlen).
Qed.

Lemma constructor_rejects_witness :
  exists e,
    thrown (newCalendar 1
              (Some (CalendarOptions.mk (Some 2023) (Some notArrayIn2023)
                       None (Some (Int 400)) None)))
    = Some e
    /\ isTypeError e = true.
Proof.
  apply (constructor_rejects 1
           (CalendarOptions.mk (Some 2023) (Some notArrayIn2023) None
              (Some (Int 400)) None)).
  right. right. exists notArrayIn2023. split; [reflexivity|].
  vm_compute. intros H. exact H.
Defined.

(** ** Generators of positive extents *)






(** ** The default generator *)

Lemma rem_zero_divide a b : b <> 0 -> (Z.rem a b =? 0) = true <-> (b | a).
Proof.
  intros Hb. rewrite Z.eqb_eq. by apply Z.rem_divide.
Qed.

Lemma leap_test y :
  (Z.rem y 4 =? 0) && (negb (Z.rem y 100 =? 0) || (Z.rem y 400 =? 0)) = true
  <-> leapYear y.
Proof.
  unfold leapYear.
  rewrite andb_true_iff, orb_true_iff, negb_true_iff.
  rewrite <- not_true_iff_false. by rewrite !rem_zero_divide.
Qed.

(** X10: with the default generator a year has 366 days when it is a
    Gregorian leap year (divisible by 4, and not by 100 unless by 400)
    and 365 days otherwise; this holds for negative years as well, and
    in every state the calendar can be in. *)
Theorem default_year_length c y :
  reachable c ->
  populateExtents c = defaultPopulateExtents ->
  exists total c',
    getLengthOfYear y c = Ret (Int total) c'
    /\ (leapYear y -> total = 366)
    /\ (~ leapYear y -> total = 365).
Proof.
  intros Hreach Hgen.
  set (leap := (Z.rem y 4 =? 0)
               && (negb (Z.rem y 100 =? 0) || (Z.rem y 400 =? 0))).
  assert (exists exts,
             layout y (Int 0)
               (match defaultPopulateExtents y with
                | GArray ext => ext | GOther => [] end) = Some exts
             /\ lengthOfExtents exts
                = Some (Int (if leap then 366 else 365)))
    as (exts & Hl & Hlen).
  { unfold defaultPopulateExtents. fold leap.
    eexists. split; [reflexivity|]. unfold lengthOfExtents. simpl.
    do 2 f_equal. by destruct leap. }
  assert ((leapYear y -> (if leap then 366 else 365) = 366)
          /\ (~ leapYear y -> (if leap then 366 else 365) = 365))
    as Hcases.
  { pose proof (leap_test y) as Ht. fold leap in Ht.
    destruct leap; split; try done.
    - intros Hno. exfalso. by apply Hno, Ht.
    - intros Hyes. apply Ht in Hyes. done. }
  exists (if leap then 366 else 365).
  destruct (extentsByStart c !! y) as [cached|] eqn:Hc.
  - destruct (reachable_cacheFromGenerator c Hreach y cached Hc)
      as (ext & Hg & Hl').
    rewrite Hgen in Hg. unfold defaultPopulateExtents in Hg, Hl.
    injection Hg as <-. assert (cached = exts) as -> by congruence.
    exists c. split; [|done]. by apply (getLengthOfYear_cached y c exts).
  - pose proof (buildExtents_outcome y c Hc) as Hb.
    destruct (buildExtents y c) as [[] c1|err c1|] eqn:Hbuild; [| |done].
    + destruct Hb as (ext & rvs & Hg & Hl' & Hstart & _).
      rewrite Hgen in Hg. unfold defaultPopulateExtents in Hg, Hl.
      injection Hg as <-. assert (rvs = exts) as -> by congruence.
      exists c1. split; [|done].
      rewrite (getLengthOfYear_resolved y c c1 Hc Hbuild).
      apply (getLengthOfYear_cached y c1 exts); [|done].
      by rewrite Hstart, lookup_insert_eq.
    + destruct Hb as (_ & Hnv & _). exfalso. apply Hnv. rewrite Hgen.
      unfold defaultPopulateExtents.
      repeat constructor; by eexists.
Qed.

Lemma default_year_length_witness :
  exists total c',
    getLengthOfYear (-400) (objectAfter (newCalendar 1 None))
    = Ret (Int total) c'
    /\ (leapYear (-400) -> total = 366)
    /\ (~ leapYear (-400) -> total = 365).
Proof.
  apply (default_year_length (objectAfter (newCalendar 1 None)) (-400)).
  - apply (reachable_new 1 None). vm_compute. reflexivity.
  - reflexivity.
Defined.

(** ** Day accounting of [setCurrentDay] *)














(** ** Years of one constant length *)

Lemma yearBefore_safe y :
  - maxSafeInteger <= y - 1 -> y <= maxSafeInteger -> yearBefore y = y - 1.
Proof.
  intros H1 H2. unfold yearBefore.
  by rewrite binary64_safe by (unfold safeInteger; lia).
Qed.

Lemma yearAfter_safe y :
  - maxSafeInteger <= y -> y + 1 <= maxSafeInteger -> yearAfter y = y + 1.
Proof.
  intros H1 H2. unfold yearAfter.
  by rewrite binary64_safe by (unfold safeInteger; lia).
Qed.

(** The backward loop over doubles through years of [L] days, from a
    safe day and through safe years. *)
Lemma rollBackward64_constant L fuel : forall n y t c,
  Double.yearLengths (constantLength L) c ->
  0 < L <= maxSafeInteger ->
  - maxSafeInteger <= n < 0 ->
  y <= maxSafeInteger ->
  - maxSafeInteger <= y + n / L ->
  (Z.to_nat (- n) <= fuel)%nat ->
  exists c',
    Double.rollBackward fuel (Int n) y t c
    = Ret (Int (n mod L), y + n / L, Int L) c'
    /\ Double.yearLengths (constantLength L) c' /\ sameButCaches c c'.
Proof.
  induction fuel as [|fuel IH]; intros n y t c Hlen HL Hn Hy Hyn Hfuel;
    [lia|].
  simpl. destruct (Z.ltb_spec n 0); [|lia]. unfold bind.
  assert (n / L <= -1) as Hq by (Z.div_mod_to_equations; nia).
  assert ((n + L) / L = n / L + 1) as Hstep.
  { replace (n + L) with (n + 1 * L) by lia. apply Z.div_add. lia. }
  assert ((n + L) mod L = n mod L) as Hrem.
  { replace (n + L) with (n + 1 * L) by lia. apply Z_mod_plus_full. }
  rewrite yearBefore_safe by lia.
  destruct (getLengthOfYear64_yearLengths (constantLength L) (y - 1) c Hlen)
    as (z & c1 & -> & -> & Hlen1 & Hsame1).
  simpl. rewrite binary64_safe by (unfold safeInteger; lia).
  destruct (Z.lt_ge_cases (n + L) 0) as [Hneg|Hnn].
  - destruct (IH (n + L) (y - 1) (Int L) c1 Hlen1 HL)
      as (c' & -> & Hlen' & Hsame'); [lia..|].
    exists c'. split_and!;
      [|done|by eapply sameButCaches_trans].
    rewrite Hstep, Hrem.
    by replace (y - 1 + (n / L + 1)) with (y + n / L) by lia.
  - exists c1. split_and!; [|done..].
    assert (Double.rollBackward fuel (Int (n + L)) (y - 1) (Int L) c1
            = Ret (Int (n + L), y - 1, Int L) c1) as ->.
    { destruct fuel; simpl; (destruct (Z.ltb_spec (n + L) 0); [lia|done]). }
    assert (n / L = -1) as ->
      by (symmetry; apply (Z.div_unique_pos n L (-1) (n + L)); lia).
    assert (n mod L = n + L) as ->
      by (symmetry; apply (Z.mod_unique_pos n L (-1) (n + L)); lia).
    by replace (y + -1) with (y - 1) by lia.
Qed.

Lemma rollForward64_constant L fuel : forall n y c,
  Double.yearLengths (constantLength L) c ->
  0 < L <= maxSafeInteger ->
  L <= n <= maxSafeInteger ->
  - maxSafeInteger <= y ->
  y + n / L <= maxSafeInteger ->
  (Z.to_nat n <= fuel)%nat ->
  exists c',
    Double.rollForward fuel (Int n) y (Int L) c
    = Ret (Int (n mod L), y + n / L, Int L) c'
    /\ Double.yearLengths (constantLength L) c' /\ sameButCaches c c'.
Proof.
  induction fuel as [|fuel IH]; intros n y c Hlen HL Hn Hy Hyn Hfuel;
    [lia|].
  simpl. destruct (Z.leb_spec L n); [|lia]. unfold bind.
  assert (1 <= n / L) as Hq by (Z.div_mod_to_equations; nia).
  assert (n / L = (n - L) / L + 1) as Hstep.
  { replace n with (n - L + 1 * L) at 1 by lia. apply Z.div_add. lia. }
  assert (n mod L = (n - L) mod L) as Hrem.
  { replace n with (n - L + 1 * L) at 1 by lia. apply Z_mod_plus_full. }
  rewrite yearAfter_safe by lia.
  destruct (getLengthOfYear64_yearLengths (constantLength L) (y + 1) c Hlen)
    as (z & c1 & -> & -> & Hlen1 & Hsame1).
  simpl. rewrite binary64_safe by (unfold safeInteger; lia).
  replace (n + - L) with (n - L) by lia.
  destruct (Z.le_gt_cases L (n - L)) as [Hge|Hlt].
  - destruct (IH (n - L) (y + 1) c1 Hlen1 HL)
      as (c' & -> & Hlen' & Hsame'); [lia..|].
    exists c'. split_and!;
      [|done|by eapply sameButCaches_trans].
    rewrite Hstep, Hrem.
    by replace (y + 1 + (n - L) / L) with (y + ((n - L) / L + 1)) by lia.
  - exists c1. split_and!; [|done..].
    assert (Double.rollForward fuel (Int (n - L)) (y + 1) (Int L) c1
            = Ret (Int (n - L), y + 1, Int L) c1) as ->.
    { destruct fuel; simpl; (destruct (Z.leb_spec L (n - L)); [lia|done]). }
    assert (n / L = 1) as ->
      by (symmetry; apply (Z.div_unique_pos n L 1 (n - L)); lia).
    assert (n mod L = n - L) as ->
      by (symmetry; apply (Z.mod_unique_pos n L 1 (n - L)); lia).
    done.
Qed.

(** With years of one safe length [L], the day setter over doubles is
    division by [L], as long as the day and the years it passes are safe
    integers. *)
Lemma setCurrentDay64_constant L fuel n c :
  Double.yearLengths (constantLength L) c ->
  0 < L <= maxSafeInteger ->
  safeInteger n ->
  safeInteger (startYear c) ->
  safeInteger (startYear c + n / L) ->
  (Z.to_nat (Z.abs n) <= fuel)%nat ->
  exists c',
    Double.setCurrentDay fuel (ANumber (Int n)) c = Ret tt c'
    /\ Double.yearLengths (constantLength L) c'
    /\ metrics c' = metrics c
    /\ position c'
       = (startYear c + n / L, Int (n mod L), Int L, currentTime c).
Proof.
  unfold safeInteger. intros Hlen HL Hn Hy Hyn Hfuel.
  simpl. unfold bind at 1 2. unfold this.
  destruct (getLengthOfYear64_yearLengths (constantLength L) (startYear c) c
              Hlen)
    as (z & c0 & -> & -> & Hlen0 & Hsame0).
  pose proof Hsame0 as (_ & Hm0 & Hpos0 & _). unfold position in Hpos0.
  assert (startYear c0 = startYear c) as Hy0 by congruence.
  assert (currentTime c0 = currentTime c) as Ht0 by congruence.
  destruct (Z.lt_ge_cases n 0) as [Hneg|Hnn].
  - destruct (rollBackward64_constant L fuel n (startYear c) (Int L) c0
                Hlen0 HL)
      as (c1 & Hback & Hlen1 & Hsame1); [lia..|].
    unfold bind at 1. rewrite Hback.
    pose proof (Z.mod_pos_bound n L ltac:(lia)) as Hr.
    unfold bind. simpl.
    destruct (Z.leb_spec L (n mod L)); [lia|]. simpl.
    pose proof Hsame1 as (_ & Hm1 & Hpos1 & _). unfold position in Hpos1.
    eexists. split_and!; [reflexivity|done|by rewrite <- Hm0, <- Hm1|].
    assert (currentTime c1 = currentTime c) as Ht1 by congruence.
    unfold position. simpl. by rewrite Ht1.
  - assert (Double.rollBackward fuel (Int n) (startYear c) (Int L) c0
            = Ret (Int n, startYear c, Int L) c0) as Hback.
    { destruct fuel; simpl; (destruct (Z.ltb_spec n 0); [lia|done]). }
    unfold bind at 1. rewrite Hback. unfold bind at 1. simpl.
    destruct (Z.leb_spec L n) as [Hge|Hlt].
    + unfold bind at 1. unfold this.
      destruct (decide (startYear c0 <> startYear c)); [done|].
      destruct (rollForward64_constant L fuel n (startYear c) c0 Hlen0 HL)
        as (c1 & Hfwd & Hlen1 & Hsame1); [lia..|].
      unfold bind. rewrite Hfwd. simpl.
      pose proof Hsame1 as (_ & Hm1 & Hpos1 & _). unfold position in Hpos1.
      eexists. split_and!; [reflexivity|done|by rewrite <- Hm0, <- Hm1|].
      assert (currentTime c1 = currentTime c) as Ht1 by congruence.
      unfold position. simpl. by rewrite Ht1.
    + unfold bind. simpl.
      eexists. split_and!; [reflexivity|done|by rewrite <- Hm0|].
      unfold position. simpl.
      rewrite Z.div_small, Z.mod_small by lia.
      by rewrite Z.add_0_r, Ht0.
Qed.

(** X14: when every year has the same positive length [L], a safe
    integer, [setCurrentDay(n)] is floor division for every safe integer
    [n] that keeps the year a safe integer: with [|n|] units of fuel it
    returns, moves the year by [floor(n / L)], sets the current day to
    [n mod L] and the total to [L], and leaves the time alone. *)
Theorem constant_years_day_is_division L fuel n c :
  Double.yearLengths (constantLength L) c ->
  0 < L <= maxSafeInteger ->
  safeInteger n ->
  safeInteger (startYear c) ->
  safeInteger (startYear c + n / L) ->
  (Z.to_nat (Z.abs n) <= fuel)%nat ->
  exists c',
    Double.setCurrentDay fuel (ANumber (Int n)) c = Ret tt c'
    /\ position c'
       = (startYear c + n / L, Int (n mod L), Int L, currentTime c).
Proof.
  intros Hlen HL Hn Hy Hyn Hfuel.
  destruct (setCurrentDay64_constant L fuel n c Hlen HL Hn Hy Hyn Hfuel)
    as (c' & H & _ & _ & Hpos).
  by exists c'.
Qed.

Lemma quartersWired_constant :
  Double.yearLengths (constantLength 365) quartersWired.
Proof.
  split.
  - intros y exts H. simpl in H. by rewrite lookup_empty in H.
  - intros y. eexists _, _, _. split_and!; reflexivity.
Qed.

Lemma constant_years_day_is_division_witness :
  exists c',
    Double.setCurrentDay 1000 (ANumber (Int (-1000))) quartersWired
    = Ret tt c'
    /\ position c'
       = (startYear quartersWired + (-1000) / 365,
          Int (Z.modulo (-1000) 365), Int 365,
          currentTime quartersWired).
Proof.
  apply (constant_years_day_is_division 365 1000 (-1000) quartersWired).
  - apply quartersWired_constant.
  - split; vm_compute; [reflexivity|discriminate].
  - split; vm_compute; discriminate.
  - split; vm_compute; discriminate.
  - split; vm_compute; discriminate.
  - vm_compute. lia.
Defined.

Lemma adjustDay64_constant L fuel n d c :
  Double.yearLengths (constantLength L) c ->
  0 < L <= maxSafeInteger ->
  currentDay c = Int d ->
  safeInteger (d + n) ->
  safeInteger (startYear c) ->
  safeInteger (startYear c + (d + n) / L) ->
  (Z.to_nat (Z.abs (d + n)) <= fuel)%nat ->
  exists c',
    Double.adjustDay fuel (Int n) c = Ret tt c'
    /\ Double.yearLengths (constantLength L) c'
    /\ metrics c' = metrics c
    /\ position c'
       = (startYear c + (d + n) / L, Int ((d + n) mod L), Int L,
          currentTime c).
Proof.
  intros Hlen HL Hd Hn Hy Hyn Hfuel.
  unfold Double.adjustDay, bind, this. rewrite Hd.
  rewrite dadd_safe by done.
  by apply setCurrentDay64_constant.
Qed.

Lemma quotient_bound x L : 0 < L -> Z.abs (x / L) <= Z.abs x.
Proof. intros HL. Z.div_mod_to_equations. nia. Qed.

(** X15: when every year has the same positive length [L] and the
    magnitudes of the start year, the current day, [a] and [b], and [L],
    add up to a safe integer, day adjustments compose: [adjustDay(a)]
    followed by [adjustDay(b)] returns and leaves the position that a
    single [adjustDay(a + b)] leaves. *)
Theorem constant_years_adjustDay_composes L fuel a b d c :
  Double.yearLengths (constantLength L) c ->
  0 < L ->
  currentDay c = Int d ->
  Z.abs (startYear c) + Z.abs d + Z.abs a + Z.abs b + L <= maxSafeInteger ->
  (Z.to_nat (Z.abs d + Z.abs a + Z.abs b + L) <= fuel)%nat ->
  exists c1 c2 c3,
    Double.adjustDay fuel (Int a) c = Ret tt c1
    /\ Double.adjustDay fuel (Int b) c1 = Ret tt c2
    /\ Double.adjustDay fuel (Int (a + b)) c = Ret tt c3
    /\ position c2 = position c3.
Proof.
  intros Hlen HL Hd Hsafe Hfuel.
  pose proof (quotient_bound (d + a) L HL) as Hq.
  pose proof (quotient_bound (d + (a + b)) L HL) as Hq'.
  pose proof (Z.mod_pos_bound (d + a) L HL) as Hr.
  assert (d + (a + b) = (d + a) mod L + b + ((d + a) / L) * L) as Hsplit.
  { pose proof (Z.div_mod (d + a) L). lia. }
  assert ((d + (a + b)) / L = ((d + a) mod L + b) / L + (d + a) / L
          /\ (d + (a + b)) mod L = ((d + a) mod L + b) mod L) as [Hdiv Hmod].
  { rewrite Hsplit, Z.div_add, Z_mod_plus_full by lia. done. }
  destruct (adjustDay64_constant L fuel a d c Hlen ltac:(lia) Hd)
    as (c1 & H1 & Hlen1 & _ & Hpos1); [unfold safeInteger; lia..|lia|].
  unfold position in Hpos1. injection Hpos1 as Hy1 Hd1 _ Ht1.
  destruct (adjustDay64_constant L fuel b _ c1 Hlen1 ltac:(lia) Hd1)
    as (c2 & H2 & _ & _ & Hpos2); [unfold safeInteger; lia..|lia|].
  destruct (adjustDay64_constant L fuel (a + b) d c Hlen ltac:(lia) Hd)
    as (c3 & H3 & _ & _ & Hpos3); [unfold safeInteger; lia..|lia|].
  exists c1, c2, c3. split_and!; [done..|].
  rewrite Hpos2, Hpos3, Hy1, Ht1, Hdiv, Hmod.
  do 3 f_equal. lia.
Qed.

Lemma constant_years_adjustDay_composes_witness :
  exists c1 c2 c3,
    Double.adjustDay 1000 (Int 400) quartersWired = Ret tt c1
    /\ Double.adjustDay 1000 (Int (-30)) c1 = Ret tt c2
    /\ Double.adjustDay 1000 (Int (400 + -30)) quartersWired = Ret tt c3
    /\ position c2 = position c3.
Proof.
  apply (constant_years_adjustDay_composes 365 1000 400 (-30) 0
           quartersWired).
  - apply quartersWired_constant.
  - lia.
  - reflexivity.
  - vm_compute. discriminate.
  - vm_compute. lia.
Defined.

(** X16: when every year has the same positive length [L], the current
    day is within the year, and the magnitudes of the start year and of
    [n], and [L], add up to a safe integer, [adjustDay(n)] followed by
    [adjustDay(-n)] returns and restores the position exactly: start
    year, current day, total days and current time. *)
Theorem constant_years_round_trip L fuel n d c :
  Double.yearLengths (constantLength L) c ->
  totalDays c = Int L ->
  currentDay c = Int d ->
  0 <= d < L ->
  Z.abs (startYear c) + Z.abs n + L <= maxSafeInteger ->
  (Z.to_nat (Z.abs n + L) <= fuel)%nat ->
  exists c1 c2,
    Double.adjustDay fuel (Int n) c = Ret tt c1
    /\ Double.adjustDay fuel (Int (- n)) c1 = Ret tt c2
    /\ position c2 = position c.
Proof.
  intros Hlen Ht Hd Hrange Hsafe Hfuel.
  assert (0 < L) as HL by lia.
  pose proof (quotient_bound (d + n) L HL) as Hq.
  pose proof (Z.mod_pos_bound (d + n) L HL) as Hr.
  assert ((d + n) mod L + - n = d + (- ((d + n) / L)) * L) as Hsplit.
  { pose proof (Z.div_mod (d + n) L). lia. }
  assert (((d + n) mod L + - n) / L = - ((d + n) / L)
          /\ ((d + n) mod L + - n) mod L = d) as [Hdiv Hmod].
  { rewrite Hsplit, Z.div_add, Z_mod_plus_full by lia.
    rewrite (Z.div_small d L), (Z.mod_small d L) by lia. done. }
  destruct (adjustDay64_constant L fuel n d c Hlen ltac:(lia) Hd)
    as (c1 & H1 & Hlen1 & _ & Hpos1); [unfold safeInteger; lia..|lia|].
  unfold position in Hpos1. injection Hpos1 as Hy1 Hd1 _ Ht1.
  destruct (adjustDay64_constant L fuel (- n) _ c1 Hlen1 ltac:(lia) Hd1)
    as (c2 & H2 & _ & _ & Hpos2); [unfold safeInteger; lia..|lia|].
  exists c1, c2. split_and!; [done..|].
  rewrite Hpos2, Hy1, Ht1, Hdiv, Hmod. unfold position. rewrite Hd, Ht.
  do 3 f_equal. lia.
Qed.

Lemma quartersCalendar64_constant :
  Double.yearLengths (constantLength 365) quartersCalendar64.
Proof.
  pose proof (setCurrentDay64_constant 365 1 0 quartersWired
                quartersWired_constant) as H.
  destruct H as (c' & Hset & Hlen & _).
  - split; vm_compute; [reflexivity|discriminate].
  - split; vm_compute; discriminate.
  - split; vm_compute; discriminate.
  - split; vm_compute; discriminate.
  - vm_compute. lia.
  - assert (quartersCalendar64 = set_currentTime (Int 0) c') as ->; [|done].
    unfold quartersCalendar64, Double.newCalendar.
    cbv zeta.
    change (default DefaultCalendarOptions
              (Some (quartersOptions everyYearQuarters)))
      with (quartersOptions everyYearQuarters).
    cbn [CalendarOptions.populateExtents CalendarOptions.startYear
         CalendarOptions.currentDay CalendarOptions.currentTime
         quartersOptions numberOr].
    change (wireFields (quartersOptions everyYearQuarters) everyYearQuarters)
      with quartersWired.
    unfold bind at 1. rewrite Hset.
    vm_compute in Hset. injection Hset as <-. vm_compute. reflexivity.
Qed.

Lemma constant_years_round_trip_witness :
  exists c1 c2,
    Double.adjustDay 1000 (Int 500) quartersCalendar64 = Ret tt c1
    /\ Double.adjustDay 1000 (Int (- 500)) c1 = Ret tt c2
    /\ position c2 = position quartersCalendar64.
Proof.
  apply (constant_years_round_trip 365 1000 500 0 quartersCalendar64).
  - apply quartersCalendar64_constant.
  - reflexivity.
  - reflexivity.
  - lia.
  - vm_compute. discriminate.
  - vm_compute. lia.
Defined.

(** X17: when every year has the same positive length [L], the day has
    [D > 0] seconds, a safe integer, and the magnitudes of the start
    year, the current day and the new time [t + n], and [L], add up to a
    safe integer, [adjustTime(n)] returns and moves the instant by
    exactly [n] seconds: the new day and time are in range, and
    [((year * L + day) * D + time)] has grown by [n], across any number
    of day and year boundaries and in either direction. *)
Theorem constant_years_adjustTime_conserves L D fuel n d t c :
  Double.yearLengths (constantLength L) c ->
  0 < L ->
  metrics c !! "day" = Some D ->
  0 < D <= maxSafeInteger ->
  currentDay c = Int d ->
  currentTime c = Int t ->
  Z.abs (startYear c) + Z.abs d + Z.abs (t + n) + L <= maxSafeInteger ->
  (Z.to_nat (Z.abs d + Z.abs (t + n)) <= fuel)%nat ->
  exists c' d' t',
    Double.adjustTime fuel (Int n) c = Ret tt c'
    /\ currentDay c' = Int d' /\ 0 <= d' < L
    /\ currentTime c' = Int t' /\ 0 <= t' < D
    /\ totalDays c' = Int L
    /\ (startYear c' * L + d') * D + t'
       = (startYear c * L + d) * D + t + n.
Proof.
  intros Hlen HL Hm HD Hd Ht Hsafe Hfuel.
  pose proof (quotient_bound (t + n) D ltac:(lia)) as Hq.
  pose proof (quotient_bound (d + (t + n) / D) L HL) as Hq'.
  unfold Double.adjustTime, bind, this, metricsDay. rewrite Hd, Ht, Hm.
  cbn [toNumber].
  rewrite (dadd_safe t n) by (unfold safeInteger; lia).
  cbn [jfloordiv].
  assert ((D =? 0) = false) as -> by (apply Z.eqb_neq; lia).
  rewrite dadd_safe by (unfold safeInteger; lia).
  destruct (setCurrentDay64_constant L fuel (d + (t + n) / D) c Hlen)
    as (c1 & -> & _ & Hm1 & Hpos1); [unfold safeInteger; lia..|lia|].
  rewrite (setCurrentTime64_returns (t + n) D c1 fuel);
    [|congruence|done|lia|lia].
  unfold position in Hpos1. injection Hpos1 as Hy Hd1 Ht1 _.
  exists (set_currentTime (Int ((t + n) mod D)) c1),
         ((d + (t + n) / D) mod L), ((t + n) mod D).
  split_and!; try done.
  - by apply Z.mod_pos_bound.
  - by apply Z.mod_pos_bound.
  - apply Z.mod_pos_bound; lia.
  - apply Z.mod_pos_bound; lia.
  - simpl. rewrite Hy.
    pose proof (Z.div_mod (d + (t + n) / D) L).
    pose proof (Z.div_mod (t + n) D). nia.
Qed.

Lemma constant_years_adjustTime_conserves_witness :
  exists c' d' t',
    Double.adjustTime 1000 (Int (-1000)) quartersCalendar64 = Ret tt c'
    /\ currentDay c' = Int d' /\ 0 <= d' < 365
    /\ currentTime c' = Int t' /\ 0 <= t' < 86400
    /\ totalDays c' = Int 365
    /\ (startYear c' * 365 + d') * 86400 + t'
       = (startYear quartersCalendar64 * 365 + 0) * 86400 + 0 + -1000.
Proof.
  apply (constant_years_adjustTime_conserves 365 86400 1000 (-1000) 0 0
           quartersCalendar64).
  - apply quartersCalendar64_constant.
  - lia.
  - reflexivity.
  - split; vm_compute; [reflexivity|discriminate].
  - reflexivity.
  - reflexivity.
  - vm_compute. discriminate.
  - vm_compute. lia.
Defined.

(** ** Binary search: what every call guarantees *)

Lemma bsearch_comparator {A} `{Comparable A} (ary : ArrayArg A) (value : A)
    (compare : option (A -> A -> Z)) :
  bsearch ary value compare
  = bsearch ary value (Some (comparatorOf value compare)).
Proof.
  unfold bsearch, comparatorOf. destruct ary as [ary|]; [|done].
  destruct (Z.of_nat (length ary) - 1 <? 0); [done|].
  destruct compare as [f|]; [done|].
  by destruct (compareMethod value).
Qed.

Section BsearchSound.
Context {A : Type}.
Variable compareFn : A -> A -> Z.
Variable ary : list A.
Variable value : A.

Lemma bsearchLoop_sound low high mid :
  0 <= low -> high < Z.of_nat (length ary) ->
  0 <= mid < Z.of_nat (length ary) ->
  match bsearchLoop compareFn ary value low high mid with
  | Returned r =>
      - Z.of_nat (length ary) < r < Z.of_nat (length ary)
      /\ (0 < r ->
          exists x, ary !! Z.to_nat r = Some x /\ compareFn value x = 0)
  | SearchRangeError comparison =>
      exists x, x ∈ ary /\ compareFn value x = comparison
                /\ switch comparison = CaseDefault
  | _ => False
  end.
Proof.
  funelim (bsearchLoop compareFn ary value low high mid);
    intros Hlow Hhigh Hmid.
  - split; [lia|]. intros Hr. lia.
  - apply lookup_ge_None in Heq.
    assert (0 <= (low + high) / 2 <= high)
      by (Z.div_mod_to_equations; lia).
    lia.
  - apply H; [done| |]; Z.div_mod_to_equations; lia.
  - pose proof (switch_inv (compareFn value x)) as Hsw. rewrite Heq in Hsw.
    assert (0 <= (low + high) / 2 <= high)
      by (Z.div_mod_to_equations; lia).
    split; [lia|]. intros _. by exists x.
  - apply H; [|done|]; Z.div_mod_to_equations; lia.
  - exists x. split_and!; [|done..].
    apply list_elem_of_lookup. eauto.
Qed.
End BsearchSound.

(** X18: whatever the array and the comparator, a number returned by
    [bsearch] lies strictly between minus the length and the length of
    the array, and a positive one is the index of an element the
    comparator reports equal to the value; a [RangeError] carries an
    answer the comparator gave for an element of the array that is none
    of -1, 0, 1. *)
Theorem bsearch_result_sound {A} `{Comparable A} (ary : list A) (value : A)
    (compare : option (A -> A -> Z)) :
  match bsearch (IsArray ary) value compare with
  | Returned r =>
      - Z.of_nat (length ary) < r < Z.of_nat (length ary)
      /\ (0 < r ->
          exists x, ary !! Z.to_nat r = Some x
                    /\ comparatorOf value compare value x = 0)
  | SearchRangeError comparison =>
      exists x, x ∈ ary
                /\ comparatorOf value compare value x = comparison
                /\ switch comparison = CaseDefault
  | SearchTypeError_empty => ary = []
  | SearchTypeError_not_array | UndefinedElement => False
  end.
Proof.
  rewrite bsearch_comparator. unfold bsearch.
  destruct (Z.ltb_spec (Z.of_nat (length ary) - 1) 0) as [Hlt|Hge].
  - destruct ary; [done|]. simpl in Hlt. lia.
  - pose proof (bsearchLoop_sound (comparatorOf value compare) ary value
                  0 (Z.of_nat (length ary) - 1) 0) as Hs.
    specialize (Hs ltac:(lia) ltac:(lia) ltac:(lia)).
    by destruct (bsearchLoop _ ary value 0 _ 0).
Qed.

(** X19: on a non-empty array, with a comparator that answers -1, 0 or 1
    for every element, [bsearch] returns a number: it raises nothing. *)
Theorem bsearch_returns {A} `{Comparable A} (ary : list A) (value : A)
    (compare : option (A -> A -> Z)) :
  ary <> [] ->
  (forall x, x ∈ ary ->
     switch (comparatorOf value compare value x) <> CaseDefault) ->
  exists r, bsearch (IsArray ary) value compare = Returned r.
Proof.
  intros Hne Hrange. rewrite bsearch_comparator. unfold bsearch.
  destruct (Z.ltb_spec (Z.of_nat (length ary) - 1) 0) as [Hlt|Hge].
  - destruct ary; [done|]. simpl in Hlt. lia.
  - pose proof (bsearchLoop_sound (comparatorOf value compare) ary value
                  0 (Z.of_nat (length ary) - 1) 0) as Hs.
    specialize (Hs ltac:(lia) ltac:(lia) ltac:(lia)).
    destruct (bsearchLoop _ ary value 0 _ 0) as [r| | |comparison|];
      [by exists r|done..| |done].
    destruct Hs as (x & Hin & <- & Hsw).
    by destruct (Hrange x Hin).
Qed.

Lemma bsearch_returns_witness :
  exists r, bsearch (IsArray arrayOfInt) 45 None = Returned r.
Proof.
  apply (bsearch_returns arrayOfInt 45 None).
  - discriminate.
  - intros x _.
    change (comparatorOf 45 None 45 x) with (compareNumbers 45 x).
    unfold compareNumbers.
    destruct (45 <? x); [|destruct (45 =? x)]; discriminate.
Defined.

(** ** Binary search: a value that does not occur *)

Section BsearchAbsent.
Context {A : Type}.
Variable compareFn : A -> A -> Z.
Variable value : A.

Lemma insertionIndex_bounds (ary : list A) :
  0 <= insertionIndex compareFn value ary <= Z.of_nat (length ary).
Proof.
  induction ary as [|x rest IH]; simpl; [lia|].
  destruct (compareFn value x =? 1); lia.
Qed.

Lemma insertionIndex_before (ary : list A) : forall (i : nat) x,
  ary !! i = Some x ->
  Z.of_nat i < insertionIndex compareFn value ary ->
  compareFn value x = 1.
Proof.
  induction ary as [|y rest IH]; intros i x; simpl; [done|].
  destruct (Z.eqb_spec (compareFn value y) 1) as [Hy|Hy]; [|lia].
  destruct i as [|i]; simpl.
  - by intros [= <-] _.
  - intros Hi Hlt. apply (IH i x Hi). lia.
Qed.

Lemma insertionIndex_at (ary : list A) : forall (i : nat) x,
  ary !! i = Some x ->
  Z.of_nat i = insertionIndex compareFn value ary ->
  compareFn value x <> 1.
Proof.
  induction ary as [|y rest IH]; intros i x; simpl; [done|].
  destruct (Z.eqb_spec (compareFn value y) 1) as [Hy|Hy].
  - destruct i as [|i]; simpl.
    + pose proof (insertionIndex_bounds rest). lia.
    + intros Hi Heq. apply (IH i x Hi). lia.
  - destruct i as [|i]; simpl; [|lia]. by intros [= <-] _.
Qed.

Variable ary : list A.
Hypothesis Hasc : ascendingFor compareFn value ary.
Hypothesis Habsent : forall x, x ∈ ary -> compareFn value x <> 0.

Lemma absent_answers (i : nat) x :
  ary !! i = Some x ->
  (Z.of_nat i < insertionIndex compareFn value ary
   /\ compareFn value x = 1)
  \/ (insertionIndex compareFn value ary <= Z.of_nat i
      /\ compareFn value x = -1).
Proof using Hasc Habsent.
  intros Hi. destruct Hasc as [Hrange Hmono].
  destruct (Z.lt_ge_cases (Z.of_nat i)
              (insertionIndex compareFn value ary)) as [Hlt|Hge].
  - left. split; [done|]. by apply (insertionIndex_before ary i x).
  - right. split; [lia|].
    pose proof (insertionIndex_bounds ary) as Hb.
    pose proof (lookup_lt_Some _ _ _ Hi) as Hlen.
    destruct (ary !! Z.to_nat (insertionIndex compareFn value ary))
      as [y|] eqn:Hy; [|apply lookup_ge_None in Hy; lia].
    assert (compareFn value y = -1) as Hm.
    { pose proof (insertionIndex_at ary _ y Hy ltac:(lia)) as Hne1.
      assert (y ∈ ary) as Hin by (apply list_elem_of_lookup; eauto).
      pose proof (Habsent y Hin) as Hne0.
      pose proof (Hrange y Hin) as Hsw. unfold switch in Hsw.
      destruct (Z.eqb_spec (compareFn value y) (-1)); [done|].
      destruct (Z.eqb_spec (compareFn value y) 0); [done|].
      destruct (Z.eqb_spec (compareFn value y) 1); done. }
    destruct (decide (Z.to_nat (insertionIndex compareFn value ary) = i))
      as [<-|Hne]; [congruence|].
    destruct (Hmono (Z.to_nat (insertionIndex compareFn value ary)) i y x)
      as [Hm' _]; [lia|done..|]. auto.
Qed.

Lemma bsearchLoop_absent low high mid :
  0 <= low -> high < Z.of_nat (length ary) ->
  low <= insertionIndex compareFn value ary <= high + 1 ->
  (low <= high
   \/ mid = insertionIndex compareFn value ary
   \/ mid = insertionIndex compareFn value ary - 1) ->
  bsearchLoop compareFn ary value low high mid
  = Returned (- insertionIndex compareFn value ary)
  \/ bsearchLoop compareFn ary value low high mid
     = Returned (- (insertionIndex compareFn value ary - 1)).
Proof using Hasc Habsent.
  funelim (bsearchLoop compareFn ary value low high mid);
    intros Hlow Hhigh Hins Hmid.
  - destruct Hmid as [?|[->| ->]]; [lia|by left|by right].
  - apply lookup_ge_None in Heq.
    assert (0 <= (low + high) / 2 <= high)
      by (Z.div_mod_to_equations; lia).
    lia.
  - pose proof (switch_inv (compareFn value x)) as Hsw. rewrite Heq in Hsw.
    assert (low <= (low + high) / 2 <= high)
      by (Z.div_mod_to_equations; lia).
    destruct (absent_answers _ x Heq0) as [[_ H1]|[Hge _]]; [lia|].
    apply H; [done|lia|lia|lia].
  - pose proof (switch_inv (compareFn value x)) as Hsw. rewrite Heq in Hsw.
    exfalso. apply (Habsent x); [|done]. apply list_elem_of_lookup. eauto.
  - pose proof (switch_inv (compareFn value x)) as Hsw. rewrite Heq in Hsw.
    assert (low <= (low + high) / 2 <= high)
      by (Z.div_mod_to_equations; lia).
    destruct (absent_answers _ x Heq0) as [[Hlt _]|[_ H1]]; [|lia].
    apply H; [lia|done|lia|lia].
  - exfalso. destruct Hasc as [Hrange _]. apply (Hrange x); [|done].
    apply list_elem_of_lookup. eauto.
Qed.
End BsearchAbsent.

(** X20: on a non-empty ascending array in which the value does not
    occur, [bsearch] returns the negation of the insertion index or of
    the insertion index minus one (the last midpoint probed), and never
    a positive number. *)
Theorem bsearch_absent {A} `{Comparable A} (ary : list A) (value : A)
    (compareFn : A -> A -> Z) :
  ary <> [] ->
  ascendingFor compareFn value ary ->
  (forall x, x ∈ ary -> compareFn value x <> 0) ->
  bsearch (IsArray ary) value (Some compareFn)
  = Returned (- insertionIndex compareFn value ary)
  \/ (0 < insertionIndex compareFn value ary
      /\ bsearch (IsArray ary) value (Some compareFn)
         = Returned (- (insertionIndex compareFn value ary - 1))).
Proof.
  intros Hne Hasc Habsent. unfold bsearch.
  destruct (Z.ltb_spec (Z.of_nat (length ary) - 1) 0) as [Hlt|Hge].
  { destruct ary; [done|]. simpl in Hlt. lia. }
  pose proof (insertionIndex_bounds compareFn value ary) as Hb.
  destruct (bsearchLoop_absent compareFn value ary Hasc Habsent
              0 (Z.of_nat (length ary) - 1) 0) as [Hr|Hr];
    [lia|lia|lia|lia|by left|].
  destruct (decide (insertionIndex compareFn value ary = 0)) as [Hz|Hnz].
  - left. rewrite Hr, Hz.
    pose proof (bsearchLoop_sound compareFn ary value
                  0 (Z.of_nat (length ary) - 1) 0
                  ltac:(lia) ltac:(lia) ltac:(lia)) as Hs.
    rewrite Hr, Hz in Hs. destruct Hs as [_ Hs].
    destruct Hs as (x & Hx & Hzero); [lia|].
    exfalso. apply (Habsent x); [|done]. apply list_elem_of_lookup. eauto.
  - right. split; [lia|done].
Qed.

Lemma StronglySorted_lookup_le (ary : list Z) : forall (i j : nat) x y,
  StronglySorted Z.le ary ->
  (i < j)%nat -> ary !! i = Some x -> ary !! j = Some y -> x <= y.
Proof.
  induction ary as [|a rest IH]; intros i j x y Hs Hij Hi Hj; [done|].
  apply StronglySorted_inv in Hs as [Hs Hall].
  destruct j as [|j]; [lia|]. simpl in Hj.
  destruct i as [|i]; simpl in Hi.
  - injection Hi as <-.
    apply (proj1 (Forall_forall _ _) Hall y).
    apply list_elem_of_lookup. eauto.
  - apply (IH i j x y Hs); [lia|done..].
Qed.

(** Numbers in non-decreasing order are ascending for the comparator
    [bsearch] falls back to, whatever the value searched. *)
Lemma sorted_numbers_ascending (ary : list Z) (value : Z) :
  StronglySorted Z.le ary -> ascendingFor compareNumbers value ary.
Proof.
  intros Hs. split.
  - intros x _. unfold compareNumbers.
    destruct (value <? x); [|destruct (value =? x)]; discriminate.
  - intros i j x y Hij Hi Hj.
    pose proof (StronglySorted_lookup_le ary i j x y Hs Hij Hi Hj) as Hle.
    unfold compareNumbers.
    destruct (Z.ltb_spec value x), (Z.ltb_spec value y),
             (Z.eqb_spec value x), (Z.eqb_spec value y);
      split; intros; try done; lia.
Qed.

Lemma arrayOfInt_sorted : StronglySorted Z.le arrayOfInt.
Proof. unfold arrayOfInt. repeat constructor; lia. Qed.

Lemma bsearch_absent_witness :
  bsearch (IsArray arrayOfInt) 45 (Some compareNumbers)
  = Returned (- insertionIndex compareNumbers 45 arrayOfInt)
  \/ (0 < insertionIndex compareNumbers 45 arrayOfInt
      /\ bsearch (IsArray arrayOfInt) 45 (Some compareNumbers)
         = Returned (- (insertionIndex compareNumbers 45 arrayOfInt - 1))).
Proof.
  apply (bsearch_absent arrayOfInt 45 compareNumbers).
  - discriminate.
  - apply sorted_numbers_ascending, arrayOfInt_sorted.
  - intros x Hx. unfold arrayOfInt in Hx.
    repeat (apply elem_of_cons in Hx as [->|Hx]; [by vm_compute|]).
    by apply elem_of_nil in Hx.
Defined.

(** ** The order of resolved extents *)

Lemma compare_cases a b x y :
  IExt.startDay a = Int x -> IExt.startDay b = Int y ->
  (IExt.compare a b = -1
   /\ (IExt.startYear a < IExt.startYear b
       \/ (IExt.startYear a = IExt.startYear b /\ x < y)))
  \/ (IExt.compare a b = 0
      /\ IExt.startYear a = IExt.startYear b /\ x = y)
  \/ (IExt.compare a b = 1
      /\ (IExt.startYear b < IExt.startYear a
          \/ (IExt.startYear a = IExt.startYear b /\ y < x))).
Proof.
  intros Ha Hb. unfold IExt.compare. rewrite Ha, Hb. simpl.
  destruct (Z.eqb_spec (IExt.startYear a - IExt.startYear b) 0) as [Hy|Hy];
    simpl.
  - destruct (Z.eqb_spec (x + - y) 0) as [Hd|Hd]; simpl.
    + right. left. split_and!; [done|lia..].
    + destruct (Z.ltb_spec (x + - y) 0).
      * left. split; [done|]. right. lia.
      * right. right. split; [done|]. right. lia.
  - destruct (Z.ltb_spec (IExt.startYear a - IExt.startYear b) 0).
    + left. split; [done|]. left. lia.
    + right. right. split; [done|]. left. lia.
Qed.

(** X21: on extents whose start days are integers, [compare] is the
    lexicographic order on (year, start day): it answers -1, 0 or 1
    according to that order, swapping the arguments negates the answer,
    and "less" is transitive. *)
Theorem compare_is_lexicographic a b c x y z :
  IExt.startDay a = Int x ->
  IExt.startDay b = Int y ->
  IExt.startDay c = Int z ->
  (IExt.compare a b = -1
   <-> IExt.startYear a < IExt.startYear b
       \/ (IExt.startYear a = IExt.startYear b /\ x < y))
  /\ (IExt.compare a b = 0
      <-> IExt.startYear a = IExt.startYear b /\ x = y)
  /\ (IExt.compare a b = 1
      <-> IExt.startYear b < IExt.startYear a
          \/ (IExt.startYear a = IExt.startYear b /\ y < x))
  /\ IExt.compare a b = - IExt.compare b a
  /\ (IExt.compare a b = -1 -> IExt.compare b c = -1 ->
      IExt.compare a c = -1).
Proof.
  intros Ha Hb Hc.
  pose proof (compare_cases a b x y Ha Hb) as Hab.
  pose proof (compare_cases b a y x Hb Ha) as Hba.
  pose proof (compare_cases b c y z Hb Hc) as Hbc.
  pose proof (compare_cases a c x z Ha Hc) as Hac.
  split_and!.
  - split; intros H; destruct Hab as [[E ?]|[[E ?]|[E ?]]]; try done;
      try (rewrite E in H; done); lia.
  - split; intros H; destruct Hab as [[E ?]|[[E ?]|[E ?]]]; try done;
      try (rewrite E in H; done); lia.
  - split; intros H; destruct Hab as [[E ?]|[[E ?]|[E ?]]]; try done;
      try (rewrite E in H; done); lia.
  - destruct Hab as [[E ?]|[[E ?]|[E ?]]],
             Hba as [[E' ?]|[[E' ?]|[E' ?]]]; rewrite E, E'; try done; lia.
  - intros H1 H2.
    destruct Hab as [[E ?]|[[E ?]|[E ?]]]; try (rewrite E in H1; done).
    destruct Hbc as [[E' ?]|[[E' ?]|[E' ?]]]; try (rewrite E' in H2; done).
    destruct Hac as [[E'' ?]|[[E'' ?]|[E'' ?]]]; [done|lia..].
Qed.

Lemma compare_is_lexicographic_witness :
  IExt.compare
    (IExt.mk 2022 (Int 90) (Extent.mk (Some "Qtr2") (Some 91)))
    (IExt.mk 2023 (Int 0) (Extent.mk (Some "Qtr1") (Some 90)))
  = - IExt.compare
        (IExt.mk 2023 (Int 0) (Extent.mk (Some "Qtr1") (Some 90)))
        (IExt.mk 2022 (Int 90) (Extent.mk (Some "Qtr2") (Some 91))).
Proof.
  exact (proj1 (proj2 (proj2 (proj2
           (compare_is_lexicographic
              (IExt.mk 2022 (Int 90) (Extent.mk (Some "Qtr2") (Some 91)))
              (IExt.mk 2023 (Int 0) (Extent.mk (Some "Qtr1") (Some 90)))
              (IExt.mk 2023 (Int 0) (Extent.mk (Some "Qtr1") (Some 90)))
              90 0 0 eq_refl eq_refl eq_refl))))).
Defined.

Lemma sumOf_cons_pair (p : string * Z) (rest : list (string * Z)) :
  sumOf (p :: rest).*2 = p.2 + sumOf rest.*2.
Proof. reflexivity. Qed.

Lemma sumOf_nonneg (pairs : list (string * Z)) :
  Forall (fun p => 0 < p.2) pairs -> 0 <= sumOf pairs.*2.
Proof.
  induction pairs as [|p rest IH]; intros Hp; [done|].
  inversion Hp as [|? ? Hp1 Hp2]; subst. specialize (IH Hp2).
  rewrite sumOf_cons_pair. lia.
Qed.

Lemma sumOf_take_lt (pairs : list (string * Z)) : forall i j : nat,
  Forall (fun p => 0 < p.2) pairs ->
  (i < j <= length pairs)%nat ->
  sumOf (take i pairs).*2 < sumOf (take j pairs).*2.
Proof.
  induction pairs as [|p rest IH]; intros i j Hp Hij; simpl in Hij; [lia|].
  inversion Hp as [|? ? Hp1 Hp2]; subst.
  destruct j as [|j]; [lia|]. destruct i as [|i].
  - pose proof (sumOf_nonneg (take j rest)
                  (Forall_take _ _ _ Hp2)) as Hnn.
    change (take (S j) (p :: rest)) with (p :: take j rest).
    rewrite sumOf_cons_pair.
    change (sumOf (take 0 (p :: rest)).*2) with 0. lia.
  - specialize (IH i j Hp2 ltac:(lia)).
    change (take (S j) (p :: rest)) with (p :: take j rest).
    change (take (S i) (p :: rest)) with (p :: take i rest).
    rewrite !sumOf_cons_pair. lia.
Qed.

(** The layout over doubles of a list of positive extents whose lengths
    add up to a safe integer is the exact layout. *)
Lemma layout64_extentsOf pairs : forall year s,
  0 <= s ->
  Forall (fun p => 0 < p.2) pairs ->
  s + sumOf pairs.*2 <= maxSafeInteger ->
  exists yearExtents,
    Double.layout year (Int s) (extentsOf pairs) = Some yearExtents
    /\ layout year (Int s) (extentsOf pairs) = Some yearExtents
    /\ (pairs <> [] ->
        Double.lengthOfExtents yearExtents
        = Some (Int (s + sumOf pairs.*2))).
Proof.
  induction pairs as [|[nm ln] rest IH]; intros year s Hs Hpos Hsum.
  - exists []. split_and!; done.
  - inversion Hpos as [|? ? Hln Hrest]; subst. simpl in Hln.
    rewrite sumOf_cons_pair in Hsum. simpl in Hsum.
    pose proof (sumOf_nonneg rest Hrest) as Hnn.
    destruct (IH year (s + ln)) as (exts & Hl64 & Hl & Htotal);
      [lia|done|lia|].
    change (extentsOf ((nm, ln) :: rest))
      with (extent nm ln :: extentsOf rest).
    cbn [Double.layout layout extent Extent.length toNumber jadd].
    rewrite dadd_safe by (unfold safeInteger; lia).
    rewrite Hl64, Hl. eexists. split_and!; [reflexivity..|].
    intros _. destruct rest as [|p rest'].
    + simpl in Hl. injection Hl as <-.
      change (sumOf ([] : list (string * Z)).*2) with 0 in *.
      rewrite sumOf_cons_pair.
      change (sumOf ([] : list (string * Z)).*2) with 0.
      unfold Double.lengthOfExtents. cbn [last IExt.startDay
        IExt.originalExt Extent.length toNumber fst snd].
      rewrite dadd_safe by (unfold safeInteger; lia).
      do 2 f_equal. lia.
    + assert (exts <> []) as Hne.
      { destruct p. simpl in Hl.
        destruct (layout year _ (extentsOf rest')); [|done].
        by injection Hl as <-. }
      unfold Double.lengthOfExtents in *.
      destruct exts as [|rv exts']; [done|].
      change (last (IExt.mk year (Int s) (Extent.mk (Some nm) (Some ln))
                      :: rv :: exts'))
        with (last (rv :: exts')).
      rewrite Htotal by done. do 2 f_equal.
      rewrite (sumOf_cons_pair (nm, ln) (p :: rest')). cbn [snd]. lia.
Qed.

(** X22: a resolved extent is found in its year by binary search.  When
    the list generated for a year that is not cached consists of (name,
    length) extents with positive lengths that add up to a safe integer,
    reading the length of the year returns that sum and caches the
    year, and searching [extentsByStart[year]] for any of its extents
    with [compare] as the comparator returns the index of that
    extent. *)
Theorem cached_extent_found_by_bsearch
    (C : Comparable IExt.t) c year pairs :
  extentsByStart c !! year = None ->
  populateExtents c year = GArray (extentsOf pairs) ->
  pairs <> [] ->
  Forall (fun p => 0 < p.2) pairs ->
  sumOf pairs.*2 <= maxSafeInteger ->
  exists c' yearExtents,
    Double.getLengthOfYear year c = Ret (Int (sumOf pairs.*2)) c'
    /\ extentsByStart c' !! year = Some yearExtents
    /\ length yearExtents = length pairs
    /\ forall (i : nat) rv,
         yearExtents !! i = Some rv ->
         bsearch (IsArray yearExtents) rv (Some IExt.compare)
         = Returned (Z.of_nat i).
Proof.
  intros Hn Hgen Hne Hpos Hsum.
  destruct (layout64_extentsOf pairs year 0 ltac:(lia) Hpos ltac:(lia))
    as (yearExtents & Hl64 & Hl & Htotal).
  destruct (layout_extentsOf pairs year 0)
    as (exts & Hl' & Hlen & Hlook & _).
  assert (exts = yearExtents) as -> by congruence.
  destruct (proj2 (getLengthOfYear64_outcome year c) _ _ Hn Hgen Hl64)
    as (c' & _ & Hstart & Hget).
  rewrite (Htotal Hne) in Hget.
  exists c', yearExtents.
  split_and!; [done|by rewrite Hstart, lookup_insert_eq|done|].
  intros i rv Hi.
  assert (forall (j : nat) x,
             yearExtents !! j = Some x ->
             IExt.startYear x = year
             /\ IExt.startDay x = Int (sumOf (take j pairs).*2)
             /\ (j < length pairs)%nat) as Hat.
  { intros j x Hj. pose proof (lookup_lt_Some _ _ _ Hj) as Hjl.
    rewrite Hlen in Hjl.
    destruct (lookup_lt_is_Some_2 pairs j Hjl) as [[nm ln] Hp].
    rewrite (Hlook j nm ln Hp) in Hj. injection Hj as <-. done. }
  destruct (Hat i rv Hi) as (Hyi & Hsi & Hil).
  assert (ascendingFor IExt.compare rv yearExtents) as Hasc.
  { split.
    - intros x Hx. apply list_elem_of_lookup in Hx as [j Hj].
      destruct (Hat j x Hj) as (_ & Hsj & _).
      destruct (compare_cases rv x _ _ Hsi Hsj)
        as [[E ?]|[[E ?]|[E ?]]]; by rewrite E.
    - intros j1 j2 x1 x2 Hj Hj1 Hj2.
      destruct (Hat j1 x1 Hj1) as (Hy1 & Hs1 & Hl1).
      destruct (Hat j2 x2 Hj2) as (Hy2 & Hs2 & Hl2).
      pose proof (sumOf_take_lt pairs j1 j2 Hpos ltac:(lia)) as Hlt.
      destruct (compare_cases rv x1 _ _ Hsi Hs1)
        as [[E1 ?]|[[E1 ?]|[E1 ?]]],
        (compare_cases rv x2 _ _ Hsi Hs2)
        as [[E2 ?]|[[E2 ?]|[E2 ?]]];
        rewrite E1, E2; split; intros; try done; lia. }
  unfold bsearch.
  pose proof (lookup_lt_Some _ _ _ Hi) as Hil'.
  destruct (Z.ltb_spec (Z.of_nat (length yearExtents) - 1) 0); [lia|].
  destruct (bsearchLoop_finds IExt.compare yearExtents rv 0
              (Z.of_nat (length yearExtents) - 1) 0 Hasc)
    as (r & x & -> & Hr & Hx & Hzero); [lia|lia| |].
  { exists (Z.of_nat i), rv. rewrite Nat2Z.id. split_and!; [lia|lia|done|].
    destruct (compare_cases rv rv _ _ Hsi Hsi)
      as [[E ?]|[[E ?]|[E ?]]]; [lia|exact E|lia]. }
  f_equal. destruct (Hat (Z.to_nat r) x Hx) as (Hyr & Hsr & Hrl).
  destruct (compare_cases rv x _ _ Hsi Hsr)
    as [[E ?]|[[E [_ Heq]]|[E ?]]]; try (rewrite E in Hzero; done).
  destruct (Nat.lt_trichotomy (Z.to_nat r) i) as [Hlt|[Heq'|Hgt]]; [|lia|].
  - pose proof (sumOf_take_lt pairs (Z.to_nat r) i Hpos ltac:(lia)). lia.
  - pose proof (sumOf_take_lt pairs i (Z.to_nat r) Hpos ltac:(lia)). lia.
Qed.

Lemma cached_extent_found_by_bsearch_witness :
  exists c' yearExtents,
    Double.getLengthOfYear 2023 quartersCalendar64
    = Ret (Int (sumOf quartersPairs.*2)) c'
    /\ extentsByStart c' !! 2023 = Some yearExtents
    /\ length yearExtents = length quartersPairs
    /\ forall (i : nat) rv,
         yearExtents !! i = Some rv ->
         @bsearch IExt.t
           (Build_Comparable IExt.t (fun v => Some (IExt.compare v))
              (fun _ _ => false) (fun _ _ => false))
           (IsArray yearExtents) rv (Some IExt.compare)
         = Returned (Z.of_nat i).
Proof.
  apply (cached_extent_found_by_bsearch _ quartersCalendar64 2023
           quartersPairs).
  - vm_compute. reflexivity.
  - vm_compute. reflexivity.
  - discriminate.
  - repeat constructor; simpl; lia.
  - vm_compute. discriminate.
Defined.

(** X23: on an array in ascending order for the value, a value that
    occurs is found, whichever way the comparator is chosen (passed,
    the value's [compare] method, or [<] and [===]): [bsearch] returns
    the index of an element the comparator reports equal. *)
Theorem bsearch_finds_occurring {A} `{Comparable A} (ary : list A)
    (value : A) (compare : option (A -> A -> Z)) :
  ascendingFor (comparatorOf value compare) value ary ->
  (exists (k : nat) (x : A),
      ary !! k = Some x /\ comparatorOf value compare value x = 0) ->
  exists r x,
    bsearch (IsArray ary) value compare = Returned r
    /\ 0 <= r
    /\ ary !! Z.to_nat r = Some x
    /\ comparatorOf value compare value x = 0.
Proof.
  intros Hasc (k & x & Hk & Hzero). rewrite bsearch_comparator.
  unfold bsearch.
  pose proof (lookup_lt_Some _ _ _ Hk) as Hlen.
  destruct (Z.ltb_spec (Z.of_nat (length ary) - 1) 0); [lia|].
  destruct (bsearchLoop_finds (comparatorOf value compare) ary value 0
              (Z.of_nat (length ary) - 1) 0 Hasc)
    as (r & xr & Hr & Hrange & Hxr & Hz); [lia|lia| |].
  { exists (Z.of_nat k), x. rewrite Nat2Z.id. split_and!; try done; lia. }
  exists r, xr. split_and!; [done|lia|done..].
Qed.

Lemma bsearch_finds_occurring_witness :
  exists r x,
    bsearch (IsArray arrayOfInt) 100 None = Returned r
    /\ 0 <= r
    /\ arrayOfInt !! Z.to_nat r = Some x
    /\ comparatorOf 100 None 100 x = 0.
Proof.
  apply (bsearch_finds_occurring arrayOfInt 100 None).
  - apply (sorted_numbers_ascending arrayOfInt 100), arrayOfInt_sorted.
  - exists 9%nat, 100. split; reflexivity.
Defined.

(** ** What the operations never do, and where they do not return *)



Lemma addDays_diverges day fuel : forall n,
  n < 0 -> day <= 0 -> addDays fuel (Int n) (Int day) = None.
Proof.
  induction fuel as [|fuel IH]; intros n Hn Hday; simpl;
    (destruct (Z.ltb_spec n 0); [|lia]); [done|].
  apply IH; lia.
Qed.

(** X25: with a day length that is zero or negative, [setCurrentTime(n)]
    does not return for a negative [n]: the time loop never reaches its
    exit, whatever the fuel. *)
Theorem setCurrentTime_diverges fuel n day c :
  metrics c !! "day" = Some day ->
  day <= 0 ->
  n < 0 ->
  setCurrentTime fuel (Int n) c = OutOfFuel.
Proof.
  intros Hm Hday Hn. unfold setCurrentTime, bind, this, metricsDay.
  rewrite Hm. simpl. by rewrite addDays_diverges.
Qed.

Lemma setCurrentTime_diverges_witness :
  setCurrentTime 1000 (Int (-1)) zeroDayCalendar = OutOfFuel.
Proof.
  apply (setCurrentTime_diverges 1000 (-1) 0 zeroDayCalendar).
  - reflexivity.
  - lia.
  - lia.
Defined.

(** X26: when the metrics have no ["day"] entry, or a day of zero
    seconds, [setCurrentTime(n)] stores [NaN] for every [n] that is not
    negative, and leaves the rest of the object alone. *)
Theorem setCurrentTime_without_day fuel n c :
  (metrics c !! "day" = None \/ metrics c !! "day" = Some 0) ->
  0 <= n ->
  setCurrentTime fuel (Int n) c = Ret tt (set_currentTime NaN c).
Proof.
  intros Hm Hn. unfold setCurrentTime, bind, this, metricsDay.
  assert (forall day, addDays fuel (Int n) day = Some (Int n)) as Hadd.
  { intros day. destruct fuel; simpl;
      (destruct (Z.ltb_spec n 0); [lia|done]). }
  rewrite Hadd. by destruct Hm as [-> | ->].
Qed.

Lemma setCurrentTime_without_day_witness :
  setCurrentTime 0 (Int 45) zeroDayCalendar
  = Ret tt (set_currentTime NaN zeroDayCalendar).
Proof.
  apply (setCurrentTime_without_day 0 45 zeroDayCalendar).
  - right. reflexivity.
  - lia.
Defined.






(** ** A list that fails validation part-way *)




